(** * sql-semantic-tokens: the SQL classifier of [src/extension.ts]

    A shallow embedding of the document scan of
    [provideDocumentSemanticTokens], of [cleanIdentifier] and [addToken],
    and of the schema loader ([ensureSchemaLoaded],
    [loadSchemaFromDatabase]), followed by the properties of the
    specification that concern them.

    JavaScript strings are sequences of UTF-16 code units.  The embedding
    represents a string as a [list ascii] and reads each [ascii] as the
    code unit of the same number, so it covers the documents whose code
    units are below 256 (ASCII and Latin-1).  On that range the character
    classes and [toLowerCase] below are those of ECMAScript. *)

From Stdlib Require Import Ascii String List Arith Bool Lia.
From stdpp Require Import base gmap sets list strings.
Import ListNotations.

Local Open Scope nat_scope.

(** A JavaScript string. *)
Abbreviation str := (list ascii).

(** String literals of the development. *)
Definition js (s : string) : str := list_ascii_of_string s.

(** ** Character classes *)

Module Char.

Definition code (c : ascii) : nat := nat_of_ascii c.

(** [\s] of a regular expression and the characters removed by
    [String.prototype.trim]: TAB, LF, VT, FF, CR, SP and NBSP. *)
Definition isWhiteSpace (c : ascii) : bool :=
  let n := code c in
  ((9 <=? n) && (n <=? 13)) || (n =? 32) || (n =? 160).

(** The class [[A-Za-z_]]. *)
Definition isLetterOrUnderscore (c : ascii) : bool :=
  let n := code c in
  ((65 <=? n) && (n <=? 90)) || ((97 <=? n) && (n <=? 122)) || (n =? 95).

(** The class [[,;()]]. *)
Definition isSeparator (c : ascii) : bool :=
  let n := code c in
  (n =? 44) || (n =? 59) || (n =? 40) || (n =? 41).

Definition isQuote (c : ascii) : bool := code c =? 34.
Definition isDot (c : ascii) : bool := code c =? 46.
Definition isOpenParen (c : ascii) : bool := code c =? 40.
Definition isCloseParen (c : ascii) : bool := code c =? 41.

(** [toLowerCase] on one code unit: A-Z, and the Latin-1 capitals
    U+00C0..U+00DE except the multiplication sign U+00D7. *)
Definition toLowerCase (c : ascii) : ascii :=
  let n := code c in
  if ((65 <=? n) && (n <=? 90))
     || ((192 <=? n) && (n <=? 222) && negb (n =? 215))
  then ascii_of_nat (n + 32) else c.

End Char.

(** ** The string operations the scanner uses *)

Module Str.

Fixpoint dropWhile (p : ascii -> bool) (s : str) : str :=
  match s with
  | [] => []
  | c :: r => if p c then dropWhile p r else s
  end.

Fixpoint takeWhile (p : ascii -> bool) (s : str) : str :=
  match s with
  | [] => []
  | c :: r => if p c then c :: takeWhile p r else []
  end.

Definition dropWhileEnd (p : ascii -> bool) (s : str) : str :=
  rev (dropWhile p (rev s)).

(** [s.trim()] *)
Definition trim (s : str) : str :=
  dropWhileEnd Char.isWhiteSpace (dropWhile Char.isWhiteSpace s).

(** [s.toLowerCase()] *)
Definition toLowerCase (s : str) : str := map Char.toLowerCase s.

(** [/[A-Za-z_]/.test(s)] *)
Definition hasLetter (s : str) : bool := existsb Char.isLetterOrUnderscore s.

Definition eqb (a b : str) : bool := bool_decide (a = b).

Fixpoint startsWith (p s : str) : bool :=
  match p, s with
  | [], _ => true
  | a :: p', b :: s' => bool_decide (a = b) && startsWith p' s'
  | _ :: _, [] => false
  end.

(** [hay.indexOf(needle)]; JavaScript's [-1] is [None]. *)
Fixpoint indexOf (needle hay : str) : option nat :=
  if startsWith needle hay then Some 0
  else match hay with
       | [] => None
       | _ :: r => option_map S (indexOf needle r)
       end.

(** [s.includes(".")] *)
Definition includesDot (s : str) : bool := existsb Char.isDot s.

(** [s.slice(0, n)] and [s.slice(n)] for [0 <= n]. *)
Definition sliceTo (n : nat) (s : str) : str := firstn n s.
Definition sliceFrom (n : nat) (s : str) : str := skipn n s.

(** [s.split(".")]: the segments between the dots, at least one. *)
Fixpoint splitDot (s : str) : list str :=
  match s with
  | [] => [[]]
  | c :: r =>
      if Char.isDot c then [] :: splitDot r
      else match splitDot r with
           | h :: t => (c :: h) :: t
           | [] => [[c]]
           end
  end.

(** [s.split(".", limit)] *)
Definition splitDotLimit (limit : nat) (s : str) : list str :=
  firstn limit (splitDot s).

(** [line.split(/(\s+)/)]: the line cut at its maximal runs of white
    space, the runs kept (the pattern has a capture group).  The result
    alternates text, run, text, ..., text; a text may be empty at either
    end.  [cur] is the piece being read, reversed, and [inWs] tells
    whether it is a run of white space. *)
Fixpoint splitWs_go (s cur : str) (inWs : bool) : list str :=
  match s with
  | [] => if inWs then [rev cur; []] else [rev cur]
  | c :: r =>
      if Bool.eqb (Char.isWhiteSpace c) inWs
      then splitWs_go r (c :: cur) inWs
      else rev cur :: splitWs_go r [c] (negb inWs)
  end.

Definition splitWs (s : str) : list str := splitWs_go s [] false.

End Str.

(** ** [cleanIdentifier] *)

(** The first [replace] of [cleanIdentifier]: every character of the
    class [[,;()]] is removed. *)
Definition removeSeparators (text : str) : str :=
  List.filter (fun c => negb (Char.isSeparator c)) text.

(** The second [replace], with the pattern [/^"+|"+$/g]: the leading run
    of quotes is removed by the first alternative, then the trailing run
    by the second. *)
Definition stripQuotes (text : str) : str :=
  Str.dropWhileEnd Char.isQuote (Str.dropWhile Char.isQuote text).

Definition cleanIdentifier (text : str) : str :=
  Str.trim (stripQuotes (removeSeparators text)).

(** ** The aggregate-call pattern

    [/^(sum|count|avg|min|max)\s*\(([^)]+)\)/i], applied with
    [rawPart.match].  The pattern is anchored at the start of the input and
    has no [g] flag, so a match is the array [[whole, group1, group2]]. *)

Module FuncCall.

Definition names : list str :=
  [js "sum"; js "count"; js "avg"; js "min"; js "max"].

(** A pattern letter matches, under the [i] flag, the input characters
    with the same canonical form; for the lower-case ASCII letters of
    [names] and an input code unit below 256 these are the letter and
    its capital. *)
Definition matchesIgnoreCase (patternChar inputChar : ascii) : bool :=
  bool_decide (Char.toLowerCase inputChar = patternChar).

Fixpoint stripName (name s : str) : option str :=
  match name, s with
  | [], _ => Some s
  | a :: name', b :: s' =>
      if matchesIgnoreCase a b then stripName name' s' else None
  | _ :: _, [] => None
  end.

Definition notCloseParen (c : ascii) : bool := negb (Char.isCloseParen c).

(** [\s*\(([^)]+)\)] on what follows the name: the white space run,
    the parenthesis, and the longest run of characters other than [)],
    which must be non-empty and followed by [)].  Returns the run of
    white space and the second group. *)
Definition matchCall (rest : str) : option (str * str) :=
  let ws := Str.takeWhile Char.isWhiteSpace rest in
  match Str.dropWhile Char.isWhiteSpace rest with
  | c :: body =>
      if Char.isOpenParen c then
        let inner := Str.takeWhile notCloseParen body in
        match inner, Str.dropWhile notCloseParen body with
        | _ :: _, _ :: _ => Some (ws, inner)
        | _, _ => None
        end
      else None
  | [] => None
  end.

(** The alternatives are tried in order; the first one for which the
    whole pattern matches gives the result. *)
Fixpoint tryNames (ns : list str) (s : str) : option (list (option str)) :=
  match ns with
  | [] => None
  | name :: ns' =>
      match stripName name s with
      | Some rest =>
          match matchCall rest with
          | Some (ws, inner) =>
              let group1 := firstn (length name) s in
              Some [Some (group1 ++ ws ++ js "(" ++ inner ++ js ")");
                    Some group1; Some inner]
          | None => tryNames ns' s
          end
      | None => tryNames ns' s
      end
  end.

Definition exec (s : str) : option (list (option str)) := tryNames names s.

End FuncCall.

(** ** Exceptions

    The places where a classification request could throw: [document.lineAt]
    on a line number outside the document, a method call on an [undefined]
    group of the match array, and the [await] of a rejected promise. *)

Inductive exn : Type :=
| IllegalLine
| TypeError
| LoadError.

Inductive result (A : Type) : Type :=
| Ok (a : A)
| Throw (e : exn).

Arguments Ok {A} a.
Arguments Throw {A} e.

#[global] Instance result_ret : MRet result := fun A a => Ok a.
#[global] Instance result_bind : MBind result := fun A B f m =>
  match m with
  | Ok a => f a
  | Throw e => Throw e
  end.

(** A [for ... of] loop whose body may throw. *)
Fixpoint forOf {A S : Type} (body : S -> A -> result S) (l : list A) (s : S)
  : result S :=
  match l with
  | [] => Ok s
  | a :: l' => s' ← body s a; forOf body l' s'
  end.

(** ** Schema, tokens and the state of a scan *)

(** The three module-level collections filled by the loader. *)
Record Schema : Type := {
  KNOWN_TABLES : gset str;
  KNOWN_COLUMNS : gset str;
  TABLE_COLUMNS : gmap str (gset str)
}.

Definition emptySchema : Schema :=
  {| KNOWN_TABLES := ∅; KNOWN_COLUMNS := ∅; TABLE_COLUMNS := ∅ |}.

(** The entries of [SQL_KEYWORDS], in the order of the source. *)
Definition keywordList : list str :=
  map js
    [ "select"; "from"; "where"; "join"; "inner"; "left"; "right"; "full";
      "on"; "group"; "by"; "order"; "limit"; "offset"; "as"; "and"; "or";
      "not"; "insert"; "into"; "update"; "delete"; "values"; "set";
      "with"; "having"; "union"; "all"; "distinct"; "exists"; "in"; "like";
      "between"; "case"; "when"; "then"; "else"; "end"; "asc"; "desc";
      "sum"; "count"; "avg"; "min"; "max" ].

Definition SQL_KEYWORDS : gset str := list_to_set keywordList.

(** [set.has(x)] *)
Definition has (s : gset str) (x : str) : bool := bool_decide (x ∈ s).

Inductive TokenType : Type := table | column.

#[global] Instance TokenType_eq_dec : EqDecision TokenType.
Proof. solve_decision. Defined.

(** [new vscode.SemanticTokensLegend(["table", "column"], [])] *)
Definition legend_tokenTypes : list TokenType := [table; column].

(** [legend.tokenTypes.indexOf(type)] *)
Fixpoint typeIndexOf (type : TokenType) (l : list TokenType) : option nat :=
  match l with
  | [] => None
  | t :: l' => if decide (t = type) then Some 0
               else option_map S (typeIndexOf type l')
  end.

(** One [builder.push(line, startChar, length, tokenTypeIndex, 0)]; the
    modifier set is always [0] and is left out. *)
Record Token : Type := {
  tokLine : nat;
  tokStartChar : nat;
  tokLength : nat;
  tokTypeIndex : nat
}.

#[global] Instance Token_eq_dec : EqDecision Token.
Proof. solve_decision. Defined.

(** The category a token index stands for. *)
Definition tokCategory (t : Token) : option TokenType :=
  legend_tokenTypes !! tokTypeIndex t.

(** The builder is the list of the tokens pushed so far, oldest first. *)
Definition addToken (builder : list Token) (line startChar length : nat)
    (type : TokenType) : list Token :=
  match typeIndexOf type legend_tokenTypes with
  | None => builder
  | Some tokenTypeIndex =>
      builder ++ [{| tokLine := line; tokStartChar := startChar;
                     tokLength := length; tokTypeIndex := tokenTypeIndex |}]
  end.

Inductive Mode : Type := mode_none | mode_select | mode_from.

#[global] Instance Mode_eq_dec : EqDecision Mode.
Proof. solve_decision. Defined.

(** The variables of the scan.  [mode], [aliasMap] and [builder] live for
    the whole document; [lastTableName], [lastWasAs] and [charIndex] are
    declared anew for every line that is scanned. *)
Record Scan : Type := {
  mode : Mode;
  aliasMap : gmap str str;
  builder : list Token;
  lastTableName : option str;
  lastWasAs : bool;
  charIndex : nat
}.

Definition setMode (m : Mode) (st : Scan) : Scan :=
  {| mode := m; aliasMap := aliasMap st; builder := builder st;
     lastTableName := lastTableName st; lastWasAs := lastWasAs st;
     charIndex := charIndex st |}.

Definition setAliasMap (a : gmap str str) (st : Scan) : Scan :=
  {| mode := mode st; aliasMap := a; builder := builder st;
     lastTableName := lastTableName st; lastWasAs := lastWasAs st;
     charIndex := charIndex st |}.

Definition setBuilder (b : list Token) (st : Scan) : Scan :=
  {| mode := mode st; aliasMap := aliasMap st; builder := b;
     lastTableName := lastTableName st; lastWasAs := lastWasAs st;
     charIndex := charIndex st |}.

Definition setLastTableName (t : option str) (st : Scan) : Scan :=
  {| mode := mode st; aliasMap := aliasMap st; builder := builder st;
     lastTableName := t; lastWasAs := lastWasAs st;
     charIndex := charIndex st |}.

Definition setLastWasAs (b : bool) (st : Scan) : Scan :=
  {| mode := mode st; aliasMap := aliasMap st; builder := builder st;
     lastTableName := lastTableName st; lastWasAs := b;
     charIndex := charIndex st |}.

(** [charIndex += rawPart.length] *)
Definition advance (rawPart : str) (st : Scan) : Scan :=
  {| mode := mode st; aliasMap := aliasMap st; builder := builder st;
     lastTableName := lastTableName st; lastWasAs := lastWasAs st;
     charIndex := charIndex st + length rawPart |}.

(** JavaScript truthiness of a string, and of a [string | null]. *)
Definition nonEmpty (s : str) : bool := negb (length s =? 0).

Definition truthy (o : option str) : bool :=
  match o with
  | Some s => nonEmpty s
  | None => false
  end.

(** ** One fragment of a line *)

Section Fragment.

Variable schema : Schema.
Variable lineNumber : nat.

(** The body of [if (funcCallMatch) { ... }], from the second group of
    the match. *)
Definition aggregateCall (st : Scan) (rawPart innerExpr : str) : Scan :=
  let innerTrimmed := Str.trim innerExpr in
  let innerOffsetInRaw := Str.indexOf innerTrimmed rawPart in
  let innerBaseChar :=
    charIndex st + match innerOffsetInRaw with
                   | Some i => i
                   | None => 0
                   end in
  let b :=
    if 0 <? length innerTrimmed then
      match Str.indexOf (js ".") innerTrimmed with
      | Some dotPosInner =>
          let leftRaw := Str.sliceTo dotPosInner innerTrimmed in
          let rightRaw := Str.sliceFrom (dotPosInner + 1) innerTrimmed in
          let leftClean := cleanIdentifier leftRaw in
          let rightClean := cleanIdentifier rightRaw in
          let b1 :=
            if Str.hasLetter leftClean
            then addToken (builder st) lineNumber innerBaseChar
                          (length leftClean) table
            else builder st in
          if Str.hasLetter rightClean
          then addToken b1 lineNumber (innerBaseChar + dotPosInner + 1)
                        (length rightClean) column
          else b1
      | None =>
          let cleanInner := cleanIdentifier innerTrimmed in
          if Str.hasLetter cleanInner
          then addToken (builder st) lineNumber innerBaseChar
                        (length cleanInner) column
          else builder st
      end
    else builder st in
  advance rawPart (setBuilder b st).

(** The branch for dotted identifiers.  [Some] is the state after the
    inner [continue]; [None] means the fragment goes on to the rules for
    plain identifiers. *)
Definition dottedIdentifier (st : Scan) (rawPart cleaned : str)
  : option Scan :=
  if Str.includesDot cleaned then
    let dotPosInRaw := Str.indexOf (js ".") rawPart in
    let pieces := Str.splitDotLimit 2 cleaned in
    match pieces !! 0, pieces !! 1, dotPosInRaw with
    | Some leftRaw, Some rightRaw, Some dotPos =>
        if nonEmpty leftRaw && nonEmpty rightRaw then
          let leftLower := Str.toLowerCase leftRaw in
          let rightLower := Str.toLowerCase rightRaw in
          let realTable := default leftLower (aliasMap st !! leftLower) in
          let b1 :=
            if has (KNOWN_TABLES schema) realTable
               || bool_decide (mode st = mode_from)
               || bool_decide (mode st = mode_select)
            then addToken (builder st) lineNumber (charIndex st)
                          (length leftRaw) table
            else builder st in
          let b2 :=
            if Str.hasLetter rightLower
            then addToken b1 lineNumber (charIndex st + dotPos + 1)
                          (length rightRaw) column
            else b1 in
          Some (advance rawPart (setBuilder b2 st))
        else None
    | _, _, _ => None
    end
  else None.

(** [if (mode === "from") { ... }]: a known table becomes the candidate
    for an alias, and a following identifier is bound to the candidate. *)
Definition aliasDetection (st : Scan) (lower : str)
  : option TokenType * Scan :=
  if bool_decide (mode st = mode_from) then
    if has (KNOWN_TABLES schema) lower then
      (Some table, setLastTableName (Some lower) st)
    else if truthy (lastTableName st) && negb (has SQL_KEYWORDS lower) then
      match lastTableName st with
      | Some t =>
          (Some table,
           setLastTableName None (setAliasMap (<[lower := t]> (aliasMap st)) st))
      | None => (None, st)
      end
    else (None, st)
  else (None, st).

(** [if (!tokenType) { ... }] *)
Definition fallbackType (st : Scan) (lower : str) : option TokenType :=
  if has (KNOWN_TABLES schema) lower then Some table
  else if has (KNOWN_COLUMNS schema) lower then Some column
  else match mode st with
       | mode_from => Some table
       | mode_select => Some column
       | mode_none => None
       end.

Definition bareIdentifier (st : Scan) (rawPart lower : str) : Scan :=
  let '(detected, st1) := aliasDetection st lower in
  let tokenType :=
    match detected with
    | Some t => Some t
    | None => fallbackType st1 lower
    end in
  let b :=
    match tokenType with
    | Some t => addToken (builder st1) lineNumber (charIndex st1)
                         (length rawPart) t
    | None => builder st1
    end in
  advance rawPart (setBuilder b st1).

(** A fragment that did not match the aggregate-call pattern. *)
Definition classifyFragment (st : Scan) (rawPart : str) : Scan :=
  let cleaned := cleanIdentifier rawPart in
  if negb (nonEmpty cleaned) then advance rawPart st
  else
    let lower := Str.toLowerCase cleaned in
    if negb (Str.hasLetter cleaned) then advance rawPart st
    else if Str.eqb lower (js "select") then
      advance rawPart (setLastWasAs false (setMode mode_select st))
    else if Str.eqb lower (js "from") || Str.eqb lower (js "join") then
      advance rawPart (setLastWasAs false (setMode mode_from st))
    else if Str.eqb lower (js "as") then
      advance rawPart (setLastWasAs true st)
    else if has SQL_KEYWORDS lower then
      advance rawPart (setLastWasAs false st)
    else if lastWasAs st && bool_decide (mode st = mode_select) then
      advance rawPart
        (setLastWasAs false
           (setBuilder (addToken (builder st) lineNumber (charIndex st)
                                 (length rawPart) column) st))
    else
      let st1 := setLastWasAs false st in
      match dottedIdentifier st1 rawPart cleaned with
      | Some st2 => st2
      | None => bareIdentifier st1 rawPart lower
      end.

(** The body of [for (const rawPart of parts)]. *)
Definition processPart (st : Scan) (rawPart : str) : result Scan :=
  if length rawPart =? 0 then Ok st
  else if length (Str.trim rawPart) =? 0 then Ok (advance rawPart st)
  else
    match FuncCall.exec rawPart with
    | Some funcCallMatch =>
        match funcCallMatch !! 2 with
        | Some (Some innerExpr) => Ok (aggregateCall st rawPart innerExpr)
        | _ => Throw TypeError
        end
    | None => Ok (classifyFragment st rawPart)
    end.

End Fragment.

(** ** Lines and documents *)

(** [rawLine.indexOf("--")] and the slice before it. *)
Definition stripComment (rawLine : str) : str :=
  match Str.indexOf (js "--") rawLine with
  | Some commentIdx => Str.sliceTo commentIdx rawLine
  | None => rawLine
  end.

(** The per-line variables as they are declared at the top of the loop
    body. *)
Definition startLine (st : Scan) : Scan :=
  {| mode := mode st; aliasMap := aliasMap st; builder := builder st;
     lastTableName := None; lastWasAs := false; charIndex := 0 |}.

(** The body of [for (let lineNumber = 0; ...)] once the line is read. *)
Definition processLine (schema : Schema) (lineNumber : nat) (st : Scan)
    (rawLine : str) : result Scan :=
  let line := stripComment rawLine in
  if length (Str.trim line) =? 0 then Ok st
  else forOf (processPart schema lineNumber) (Str.splitWs line) (startLine st).

(** A [vscode.TextDocument]: its lines, without their terminators. *)
Record TextDocument : Type := { lines : list str }.

Definition lineCount (document : TextDocument) : nat := length (lines document).

(** [document.lineAt(n).text]; the editor throws outside the document. *)
Definition lineAt (document : TextDocument) (n : nat) : result str :=
  match lines document !! n with
  | Some text => Ok text
  | None => Throw IllegalLine
  end.

Definition initialScan : Scan :=
  {| mode := mode_none; aliasMap := ∅; builder := [];
     lastTableName := None; lastWasAs := false; charIndex := 0 |}.

(** The line loop, from the state [st]. *)
Definition scanDocument (schema : Schema) (document : TextDocument)
    (st : Scan) : result Scan :=
  forOf (fun st lineNumber =>
           rawLine ← lineAt document lineNumber;
           processLine schema lineNumber st rawLine)
        (seq 0 (lineCount document)) st.

(** The scan of [provideDocumentSemanticTokens] against the schema that
    the awaited load left behind; the result is the content of the
    builder. *)
Definition provideDocumentSemanticTokens (schema : Schema)
    (document : TextDocument) : result (list Token) :=
  st ← scanDocument schema document initialScan;
  mret (builder st).

(** ** Loading the schema *)

(** What the database answers to the four awaited calls of the loader: an
    answer, or the exception the call rejects with.  The rows are the
    values of [table_name], and of [table_name] and [column_name]. *)
Inductive outcome (A : Type) : Type :=
| Resolved (a : A)
| Rejected.

Arguments Resolved {A} a.
Arguments Rejected {A}.

Record Database : Type := {
  connect : outcome unit;
  queryTables : outcome (list str);
  queryColumns : outcome (list (str * str));
  endClient : outcome unit
}.

(** [KNOWN_TABLES.add(t); TABLE_COLUMNS.set(t, new Set())] *)
Definition addTableRow (s : Schema) (table_name : str) : Schema :=
  let t := Str.toLowerCase table_name in
  {| KNOWN_TABLES := {[t]} ∪ KNOWN_TABLES s;
     KNOWN_COLUMNS := KNOWN_COLUMNS s;
     TABLE_COLUMNS := <[t := ∅]> (TABLE_COLUMNS s) |}.

(** The body of the loop over [colsRes.rows]. *)
Definition addColumnRow (s : Schema) (row : str * str) : Schema :=
  let tableName := Str.toLowerCase (fst row) in
  let columnName := Str.toLowerCase (snd row) in
  let set := default ∅ (TABLE_COLUMNS s !! tableName) in
  {| KNOWN_TABLES := KNOWN_TABLES s;
     KNOWN_COLUMNS :=
       {[tableName ++ js "." ++ columnName]} ∪ ({[columnName]} ∪ KNOWN_COLUMNS s);
     TABLE_COLUMNS := <[tableName := {[columnName]} ∪ set]> (TABLE_COLUMNS s) |}.

(** The [try] block: the three collections are cleared, then filled from
    the two queries.  The result is the collections as the block leaves
    them and whether it completed ([true]) or threw ([false]). *)
Definition loadBody (db : Database) : Schema * bool :=
  match queryTables db with
  | Rejected => (emptySchema, false)
  | Resolved tableRows =>
      let s1 := fold_left addTableRow tableRows emptySchema in
      match queryColumns db with
      | Rejected => (s1, false)
      | Resolved colRows => (fold_left addColumnRow colRows s1, true)
      end
  end.

(** [loadSchemaFromDatabase]: the collections afterwards, and whether the
    returned promise is fulfilled ([true]) or rejected ([false]). *)
Definition loadSchemaFromDatabase (db : Database) (s : Schema)
  : Schema * bool :=
  match connect db with
  | Rejected => (s, false)
  | Resolved _ =>
      let '(s1, completed) := loadBody db in
      match endClient db with
      | Resolved _ => (s1, completed)
      | Rejected => (s1, false)
      end
  end.

(** [promise.catch(handler)] with a handler that only logs: the new
    promise is fulfilled whatever the first one does. *)
Definition catchAndLog (fulfilled : bool) : bool := true.

(** The module-level state of a session.  A promise is named by the
    number of the load it belongs to; [loadsStarted] counts the calls of
    [loadSchemaFromDatabase]; [pending] tells whether the load behind
    [schemaLoadPromise] is still in flight. *)
Record Session : Type := {
  globals : Schema;
  schemaLoadPromise : option nat;
  loadsStarted : nat;
  pending : bool;
  promiseFulfilled : bool
}.

Definition initialSession : Session :=
  {| globals := emptySchema; schemaLoadPromise := None; loadsStarted := 0;
     pending := false; promiseFulfilled := false |}.

(** [ensureSchemaLoaded]: the session afterwards and the promise
    returned. *)
Definition ensureSchemaLoaded (s : Session) : Session * nat :=
  match schemaLoadPromise s with
  | None =>
      let p := loadsStarted s in
      ({| globals := globals s; schemaLoadPromise := Some p;
          loadsStarted := S (loadsStarted s); pending := true;
          promiseFulfilled := false |}, p)
  | Some p => (s, p)
  end.

(** The load in flight runs to its end.  Every reader of the collections
    first awaits [schemaLoadPromise], so none runs between the awaits of
    the loader and the load is one step for them. *)
Definition settleLoad (db : Database) (s : Session) : Session :=
  if pending s then
    let '(g, fulfilled) := loadSchemaFromDatabase db (globals s) in
    {| globals := g; schemaLoadPromise := schemaLoadPromise s;
       loadsStarted := loadsStarted s; pending := false;
       promiseFulfilled := catchAndLog fulfilled |}
  else s.

(** What happens in a session, in the order of the event loop. *)
Inductive Event : Type :=
| EnsureCalled
| LoadSettled.

Definition sessionStep (db : Database) (s : Session) (e : Event)
  : Session * option nat :=
  match e with
  | EnsureCalled => let '(s', p) := ensureSchemaLoaded s in (s', Some p)
  | LoadSettled => (settleLoad db s, None)
  end.

(** The session after a sequence of events, and the promises the calls of
    [ensureSchemaLoaded] returned, in order. *)
Fixpoint runSession (db : Database) (s : Session) (es : list Event)
  : Session * list nat :=
  match es with
  | [] => (s, [])
  | e :: es' =>
      let '(s1, r) := sessionStep db s e in
      let '(s2, ps) := runSession db s1 es' in
      (s2, match r with Some p => p :: ps | None => ps end)
  end.

(** A classification request: [await ensureSchemaLoaded()], then the scan
    against the collections.  Awaiting lets the load in flight settle; a
    rejected promise would throw here. *)
Definition classificationRequest (db : Database) (s : Session)
    (document : TextDocument) : Session * result (list Token) :=
  let '(s1, _) := ensureSchemaLoaded s in
  let s2 := settleLoad db s1 in
  if promiseFulfilled s2
  then (s2, provideDocumentSemanticTokens (globals s2) document)
  else (s2, Throw LoadError).

(** ** The example of the specification *)

Definition exampleDatabase : Database :=
  {| connect := Resolved tt;
     queryTables := Resolved [js "accounts"; js "orders"];
     queryColumns :=
       Resolved [ (js "accounts", js "id"); (js "accounts", js "name");
                  (js "orders", js "id"); (js "orders", js "account_id");
                  (js "orders", js "total_amt_usd") ];
     endClient := Resolved tt |}.

(** The schema [{accounts(id,name), orders(id,account_id,total_amt_usd)}],
    as the loader builds it. *)
Definition exampleSchema : Schema :=
  fst (loadSchemaFromDatabase exampleDatabase emptySchema).

Definition exampleDocument : TextDocument :=
  {| lines :=
       [js "SELECT a.name, SUM(o.total_amt_usd) AS total_sales FROM accounts a JOIN orders o ON a.id = o.account_id"] |}.

(** The text of the document that a token covers. *)
Definition tokenText (document : TextDocument) (t : Token) : str :=
  firstn (tokLength t)
         (skipn (tokStartChar t) (default [] (lines document !! tokLine t))).

(** A token as the specification describes it: where it starts, what it
    covers, and its category. *)
Definition describe (document : TextDocument) (t : Token)
  : nat * string * option TokenType :=
  (tokStartChar t, string_of_list_ascii (tokenText document t), tokCategory t).

(** ** Token order *)

Definition tokLe (a b : Token) : Prop :=
  tokLine a < tokLine b
  \/ (tokLine a = tokLine b /\ tokStartChar a <= tokStartChar b).

(** Every token is at or after the one pushed before it. *)
Fixpoint nonDecreasing (l : list Token) : Prop :=
  match l with
  | a :: r => match r with
              | b :: _ => tokLe a b
              | [] => True
              end /\ nonDecreasing r
  | [] => True
  end.

(** The tokens [new] pushed for a fragment of line [ln] that starts at
    [lo] and ends at [hi]: in order, on that line, inside the fragment. *)
Definition within (ln lo hi : nat) (new : list Token) : Prop :=
  nonDecreasing new
  /\ Forall (fun t => tokLine t = ln
                      /\ lo <= tokStartChar t /\ tokStartChar t <= hi) new.

(** The token [t] is not after column [ci] of line [ln]. *)
Definition atOrBefore (ln ci : nat) (t : Token) : Prop :=
  tokLine t < ln \/ (tokLine t = ln /\ tokStartChar t <= ci).

(** The token that [addToken] pushes for a category. *)
Definition tokenOf (line startChar length : nat) (type : TokenType) : Token :=
  {| tokLine := line; tokStartChar := startChar; tokLength := length;
     tokTypeIndex := match type with table => 0 | column => 1 end |}.

(** ** Traces of the scan

    The scan is a sequence of steps on the state: a fragment of some line
    is processed, or a new line is started and the per-line variables are
    declared anew. *)
Inductive ScanStep : Type :=
| PartStep (lineNumber : nat) (rawPart : str)
| LineStep.

Definition runStep (schema : Schema) (st : Scan) (step : ScanStep)
  : result Scan :=
  match step with
  | PartStep lineNumber rawPart => processPart schema lineNumber st rawPart
  | LineStep => Ok (startLine st)
  end.

(** The step is not the keyword [select]. *)
Definition notSelect (step : ScanStep) : Prop :=
  match step with
  | PartStep _ rawPart => Str.toLowerCase (cleanIdentifier rawPart) <> js "select"
  | LineStep => True
  end.

(** Two documents that differ only in the case of their letters. *)
Definition caseVariant (a b : TextDocument) : Prop :=
  map Str.toLowerCase (lines a) = map Str.toLowerCase (lines b).

(** The state of the scan of [FROM accounts WHERE x] just before the
    fragment [WHERE]: the table [accounts] is pending. *)
Definition afterFromAccounts : Scan :=
  {| mode := mode_from; aliasMap := ∅; builder := [tokenOf 0 5 8 table];
     lastTableName := Some (js "accounts"); lastWasAs := false;
     charIndex := 14 |}.

(** The state of the scan of [SELECT x AS a.b] just before the fragment
    [a.b]. *)
Definition afterSelectXAs : Scan :=
  {| mode := mode_select; aliasMap := ∅; builder := [tokenOf 0 7 1 column];
     lastTableName := None; lastWasAs := true; charIndex := 12 |}.

(** A database whose second catalog query fails. *)
Definition columnsFailDatabase : Database :=
  {| connect := Resolved tt;
     queryTables := Resolved [js "accounts"; js "orders"];
     queryColumns := Rejected;
     endClient := Resolved tt |}.

(** The invariant of a session: no load was started and there is no
    promise, or exactly one load was started and the promise is its
    promise. *)
Definition notStarted (s : Session) : Prop :=
  schemaLoadPromise s = None /\ loadsStarted s = 0.

Definition startedOnce (s : Session) : Prop :=
  schemaLoadPromise s = Some 0 /\ loadsStarted s = 1.

(** * Properties *)

#[local] Set Warnings "-clear-no-such-hyp".

(** ** Facts about the string operations *)

Section StringFacts.

Implicit Types (s t : str) (p : ascii -> bool).

Lemma dropWhile_length p s : length (Str.dropWhile p s) <= length s.
Proof. induction s as [|c r IH]; simpl; [lia|]. destruct (p c); simpl; lia. Qed.

Lemma takeWhile_length p s : length (Str.takeWhile p s) <= length s.
Proof. induction s as [|c r IH]; simpl; [lia|]. destruct (p c); simpl; lia. Qed.

Lemma takeWhile_dropWhile p s : Str.takeWhile p s ++ Str.dropWhile p s = s.
Proof.
  induction s as [|c r IH]; simpl; [done|].
  destruct (p c); simpl; [by rewrite IH | done].
Qed.

Lemma dropWhileEnd_length p s : length (Str.dropWhileEnd p s) <= length s.
Proof.
  unfold Str.dropWhileEnd. rewrite length_rev.
  etrans; [apply dropWhile_length|]. by rewrite length_rev.
Qed.

Lemma trim_length s : length (Str.trim s) <= length s.
Proof.
  unfold Str.trim. etrans; [apply dropWhileEnd_length|]. apply dropWhile_length.
Qed.

Lemma dropWhile_In p s c : In c (Str.dropWhile p s) -> In c s.
Proof.
  induction s as [|a r IH]; simpl; [done|].
  destruct (p a); simpl; tauto.
Qed.

Lemma dropWhileEnd_In p s c : In c (Str.dropWhileEnd p s) -> In c s.
Proof.
  unfold Str.dropWhileEnd. rewrite <- in_rev. intros H%dropWhile_In.
  by rewrite <- in_rev in H.
Qed.

Lemma trim_In s c : In c (Str.trim s) -> In c s.
Proof. unfold Str.trim. intros H%dropWhileEnd_In. by apply dropWhile_In in H. Qed.

Lemma cleanIdentifier_In s c : In c (cleanIdentifier s) -> In c s.
Proof.
  unfold cleanIdentifier, stripQuotes, removeSeparators.
  intros H%trim_In%dropWhileEnd_In%dropWhile_In.
  apply filter_In in H. tauto.
Qed.

Lemma startsWith_length t s :
  Str.startsWith t s = true -> length t <= length s.
Proof.
  revert s. induction t as [|a t IH]; intros [|b s]; simpl; try lia; try done.
  intros [_ H]%andb_prop. apply IH in H. lia.
Qed.

(** An occurrence found by [indexOf] lies inside the string. *)
Lemma indexOf_bound t s i :
  Str.indexOf t s = Some i -> i + length t <= length s.
Proof.
  revert i. induction s as [|c r IH]; intros i.
  - simpl. destruct (Str.startsWith t []) eqn:E; [|done].
    intros [= <-]. apply startsWith_length in E. simpl in *. lia.
  - cbn [Str.indexOf]. destruct (Str.startsWith t (c :: r)) eqn:E.
    + intros [= <-]. apply startsWith_length in E. lia.
    + destruct (Str.indexOf t r) as [j|]; [|done].
      intros [= <-]. specialize (IH j eq_refl). simpl. lia.
Qed.

Lemma indexOf_dot_lt s i : Str.indexOf (js ".") s = Some i -> i < length s.
Proof. intros H%indexOf_bound. simpl in H. lia. Qed.

Lemma indexOf_dot_includes s :
  Str.includesDot s = true -> exists i, Str.indexOf (js ".") s = Some i.
Proof.
  change (js ".") with ["."%char].
  induction s as [|c r IH]; [done|].
  cbn [Str.indexOf Str.includesDot existsb Str.startsWith].
  destruct (bool_decide ("."%char = c)) eqn:E.
  - destruct r; simpl; eauto.
  - intros [Hc|Hr]%orb_prop.
    + exfalso. apply bool_decide_eq_false in E. apply E.
      unfold Char.isDot, Char.code in Hc. apply Nat.eqb_eq in Hc.
      rewrite <- (ascii_nat_embedding c), Hc. reflexivity.
    + destruct (IH Hr) as [i ->]. simpl. eauto.
Qed.

Lemma includesDot_In s :
  Str.includesDot s = true <-> exists c, In c s /\ Char.isDot c = true.
Proof. apply existsb_exists. Qed.

End StringFacts.

(** ** Facts about the aggregate-call pattern *)

Section FuncCallFacts.

Lemma stripName_length name s rest :
  FuncCall.stripName name s = Some rest -> length rest <= length s.
Proof.
  revert s. induction name as [|a name IH]; intros [|b s]; simpl; try done.
  - intros [= <-]. done.
  - intros [= <-]. done.
  - destruct (FuncCall.matchesIgnoreCase a b); [|done].
    intros H%IH. lia.
Qed.

Lemma matchCall_length rest ws inner :
  FuncCall.matchCall rest = Some (ws, inner) ->
  0 < length inner /\ length inner < length rest.
Proof.
  unfold FuncCall.matchCall.
  pose proof (dropWhile_length Char.isWhiteSpace rest) as Hd.
  destruct (Str.dropWhile Char.isWhiteSpace rest) as [|c body]; [done|].
  destruct (Char.isOpenParen c); [|done].
  pose proof (takeWhile_length FuncCall.notCloseParen body) as Ht.
  destruct (Str.takeWhile FuncCall.notCloseParen body) as [|i0 i] eqn:Ei; [done|].
  destruct (Str.dropWhile FuncCall.notCloseParen body); [done|].
  intros [= <- <-]. simpl in *. lia.
Qed.

(** A match always carries its three entries, and the second group is a
    non-empty string shorter than the input. *)
Lemma tryNames_groups ns s m :
  FuncCall.tryNames ns s = Some m ->
  exists whole group1 inner,
    m = [Some whole; Some group1; Some inner]
    /\ 0 < length inner /\ length inner < length s.
Proof.
  induction ns as [|name ns IH]; simpl; [done|].
  destruct (FuncCall.stripName name s) as [rest|] eqn:En; [|exact IH].
  destruct (FuncCall.matchCall rest) as [[ws inner]|] eqn:Em; [|exact IH].
  intros [= <-]. do 3 eexists. split; [reflexivity|].
  apply matchCall_length in Em. apply stripName_length in En. lia.
Qed.

Lemma exec_groups s m :
  FuncCall.exec s = Some m ->
  exists whole group1 inner,
    m = [Some whole; Some group1; Some inner]
    /\ 0 < length inner /\ length inner < length s.
Proof. apply tryNames_groups. Qed.

Lemma stripName_first a name s rest :
  FuncCall.stripName (a :: name) s = Some rest ->
  exists c r, s = c :: r /\ Char.toLowerCase c = a.
Proof.
  destruct s as [|c r]; simpl; [done|].
  unfold FuncCall.matchesIgnoreCase. case_bool_decide; [|done].
  intros _. eauto.
Qed.

Lemma tryNames_first ns s m :
  ~ In [] ns ->
  FuncCall.tryNames ns s = Some m ->
  exists c r name, s = c :: r /\ In (Char.toLowerCase c :: name) ns.
Proof.
  induction ns as [|name ns IH]; simpl; [done|].
  intros Hne.
  assert (Hrec : FuncCall.tryNames ns s = Some m ->
                 exists c r name0, s = c :: r
                   /\ (name = Char.toLowerCase c :: name0
                       \/ In (Char.toLowerCase c :: name0) ns)).
  { intros (c & r & name0 & -> & Hin)%IH; [eauto 6 | tauto]. }
  destruct (FuncCall.stripName name s) as [rest|] eqn:En; [|exact Hrec].
  destruct (FuncCall.matchCall rest) as [[ws inner]|] eqn:Em; [|exact Hrec].
  intros _. destruct name as [|a name]; [tauto|].
  destruct (stripName_first _ _ _ _ En) as (c & r & -> & <-). eauto 6.
Qed.

(** A fragment that matches starts with the first letter of one of the
    five names, in either case. *)
Lemma exec_first s m :
  FuncCall.exec s = Some m ->
  exists c r, s = c :: r
    /\ In (Char.toLowerCase c) ["s"; "c"; "a"; "m"]%char.
Proof.
  intros (c & r & name & -> & Hin)%tryNames_first.
  - exists c, r. split; [done|].
    unfold FuncCall.names in Hin. simpl in Hin.
    destruct Hin as [H|[H|[H|[H|[H|[]]]]]];
      apply (f_equal head) in H; simpl in H; injection H; intros <-;
      simpl; tauto.
  - unfold FuncCall.names. simpl. intuition discriminate.
Qed.

End FuncCallFacts.

(** ** What one fragment pushes *)

Lemma addToken_tokenOf b ln start len type :
  addToken b ln start len type = b ++ [tokenOf ln start len type].
Proof. by destruct type. Qed.

Lemma tokenOf_category ln start len type :
  tokCategory (tokenOf ln start len type) = Some type.
Proof. by destruct type. Qed.

Lemma within_nil ln lo hi : within ln lo hi [].
Proof. split; [exact I | constructor]. Qed.

Lemma within_one ln lo hi t :
  tokLine t = ln -> lo <= tokStartChar t -> tokStartChar t <= hi ->
  within ln lo hi [t].
Proof. intros. split; [simpl; tauto | repeat constructor; assumption]. Qed.

Lemma within_two ln lo hi t u :
  tokLine t = ln -> tokLine u = ln ->
  lo <= tokStartChar t -> tokStartChar t <= tokStartChar u ->
  tokStartChar u <= hi ->
  within ln lo hi [t; u].
Proof.
  intros. split.
  - simpl. unfold tokLe. intuition lia.
  - repeat constructor; try assumption; lia.
Qed.

(** Closes a goal [exists new, b' = b ++ new /\ within ln lo hi new] where
    [b'] is [b] after at most two calls of [addToken]. *)
Ltac pushed :=
  rewrite ?addToken_tokenOf, <- ?app_assoc;
  first
    [ exists []; split; [by rewrite app_nil_r | apply within_nil]
    | eexists; split; [reflexivity|]; cbn [app];
      first [apply within_one | apply within_two]; simpl; lia ].

Section Emission.

Variable schema : Schema.
Variable lineNumber : nat.

(** The aggregate branch pushes at most the two tokens of the inner
    expression, inside the fragment. *)
Lemma aggregateCall_emits st rawPart innerExpr :
  length innerExpr <= length rawPart ->
  exists new,
    builder (aggregateCall lineNumber st rawPart innerExpr) = builder st ++ new
    /\ within lineNumber (charIndex st) (charIndex st + length rawPart) new.
Proof.
  intros Hlen. unfold aggregateCall. cbn [builder advance setBuilder].
  pose proof (trim_length innerExpr) as Htrim.
  set (inner := Str.trim innerExpr) in *.
  assert (Hoff : match Str.indexOf inner rawPart with
                 | Some i => i | None => 0 end + length inner
                 <= length rawPart).
  { destruct (Str.indexOf inner rawPart) as [i|] eqn:Ei.
    - by apply indexOf_bound.
    - simpl. lia. }
  set (off := match Str.indexOf inner rawPart with
              | Some i => i | None => 0 end) in *.
  destruct (0 <? length inner); [|pushed].
  destruct (Str.indexOf (js ".") inner) as [dot|] eqn:Edot.
  - apply indexOf_dot_lt in Edot.
    destruct (Str.hasLetter (cleanIdentifier (Str.sliceTo dot inner)));
      destruct (Str.hasLetter (cleanIdentifier (Str.sliceFrom (dot + 1) inner)));
      pushed.
  - destruct (Str.hasLetter (cleanIdentifier inner)); pushed.
Qed.

Lemma dottedIdentifier_emits st rawPart cleaned st' :
  dottedIdentifier schema lineNumber st rawPart cleaned = Some st' ->
  charIndex st' = charIndex st + length rawPart
  /\ exists new,
       builder st' = builder st ++ new
       /\ within lineNumber (charIndex st) (charIndex st') new.
Proof.
  unfold dottedIdentifier.
  destruct (Str.includesDot cleaned); [|done].
  destruct (Str.splitDotLimit 2 cleaned !! 0) as [leftRaw|]; [|done].
  destruct (Str.splitDotLimit 2 cleaned !! 1) as [rightRaw|]; [|done].
  destruct (Str.indexOf (js ".") rawPart) as [dot|] eqn:Edot; [|done].
  apply indexOf_dot_lt in Edot.
  destruct (nonEmpty leftRaw && nonEmpty rightRaw); [|done].
  intros [= <-]. cbn [builder advance setBuilder charIndex].
  split; [done|].
  destruct (has (KNOWN_TABLES schema) _ || _ || _);
    destruct (Str.hasLetter (Str.toLowerCase rightRaw)); pushed.
Qed.

Lemma aliasDetection_keeps st lower detected st1 :
  aliasDetection schema st lower = (detected, st1) ->
  builder st1 = builder st /\ charIndex st1 = charIndex st
  /\ mode st1 = mode st.
Proof.
  unfold aliasDetection.
  repeat match goal with
         | |- context [if ?c then _ else _] => destruct c
         | |- context [match lastTableName st with _ => _ end] =>
             destruct (lastTableName st)
         end; intros [= <- <-]; done.
Qed.

Lemma bareIdentifier_emits st rawPart lower :
  let st' := bareIdentifier schema lineNumber st rawPart lower in
  charIndex st' = charIndex st + length rawPart
  /\ exists new,
       builder st' = builder st ++ new
       /\ within lineNumber (charIndex st) (charIndex st') new.
Proof.
  unfold bareIdentifier.
  destruct (aliasDetection schema st lower) as [detected st1] eqn:Ea.
  apply aliasDetection_keeps in Ea as (Hb & Hc & _).
  cbn [builder advance setBuilder charIndex]. rewrite Hb, Hc.
  split; [done|].
  destruct (match detected with
            | Some t => Some t
            | None => fallbackType schema st1 lower
            end) as [t|]; pushed.
Qed.

Lemma classifyFragment_emits st rawPart :
  let st' := classifyFragment schema lineNumber st rawPart in
  charIndex st' = charIndex st + length rawPart
  /\ exists new,
       builder st' = builder st ++ new
       /\ within lineNumber (charIndex st) (charIndex st') new.
Proof.
  unfold classifyFragment.
  repeat match goal with
         | |- context [if ?c then _ else _] =>
             destruct c; [split; [done | pushed]|]
         end.
  destruct (dottedIdentifier schema lineNumber (setLastWasAs false st)
              rawPart (cleanIdentifier rawPart)) as [st2|] eqn:Ed.
  - apply dottedIdentifier_emits in Ed. exact Ed.
  - apply (bareIdentifier_emits (setLastWasAs false st)).
Qed.

(** Every fragment is processed without an exception; the tokens it
    pushes lie inside it, in order, and [charIndex] moves to its end. *)
Lemma processPart_emits st rawPart :
  exists st' new,
    processPart schema lineNumber st rawPart = Ok st'
    /\ builder st' = builder st ++ new
    /\ charIndex st <= charIndex st'
    /\ within lineNumber (charIndex st) (charIndex st') new.
Proof.
  unfold processPart.
  destruct (length rawPart =? 0).
  { exists st, []. rewrite app_nil_r. auto using within_nil. }
  destruct (length (Str.trim rawPart) =? 0).
  { eexists _, []. split; [done|]. cbn. rewrite app_nil_r.
    split; [done|]. split; [lia | apply within_nil]. }
  destruct (FuncCall.exec rawPart) as [m|] eqn:Em.
  - apply exec_groups in Em as (whole & g1 & inner & -> & _ & Hlt).
    cbn [lookup list_lookup].
    destruct (aggregateCall_emits st rawPart inner) as (new & Hb & Hw); [lia|].
    eexists _, new. split; [done|]. split; [done|].
    unfold aggregateCall at 1 2. cbn [charIndex advance setBuilder].
    split; [lia | done].
  - destruct (classifyFragment_emits st rawPart) as (Hc & new & Hb & Hw).
    eexists _, new. split; [done|]. split; [done|]. split; [lia | done].
Qed.

End Emission.

(** ** The scan never throws and pushes its tokens in order *)

Section Ordering.

Variable schema : Schema.

Lemma atOrBefore_mono ln lo hi t :
  lo <= hi -> atOrBefore ln lo t -> atOrBefore ln hi t.
Proof. unfold atOrBefore. intros ? [?|[? ?]]; [left | right; split]; lia. Qed.

Lemma within_atOrBefore ln lo hi new :
  within ln lo hi new -> Forall (atOrBefore ln hi) new.
Proof.
  intros [_ H]. eapply Forall_impl; [exact H|].
  intros t (? & ? & ?). right. done.
Qed.

Lemma nonDecreasing_app l new ln lo hi :
  nonDecreasing l -> Forall (atOrBefore ln lo) l -> within ln lo hi new ->
  nonDecreasing (l ++ new).
Proof.
  intros Hl Hb [Hn Hw]. induction l as [|a r IH]; [exact Hn|].
  destruct Hl as [Hab Hr]. inversion Hb as [|? ? Ha Hbr]; subst.
  cbn [app nonDecreasing]. split; [|by apply IH].
  destruct r as [|b r']; [|exact Hab].
  destruct new as [|n new']; [exact I|]. cbn [app].
  inversion Hw as [|? ? (Hln & Hlo & _) _]; subst.
  unfold tokLe. destruct Ha as [?|[? ?]]; [left | right]; lia.
Qed.

(** The invariant of the loop over the fragments of line [ln]. *)
Lemma parts_ordered ln parts st :
  nonDecreasing (builder st) ->
  Forall (atOrBefore ln (charIndex st)) (builder st) ->
  exists st',
    forOf (processPart schema ln) parts st = Ok st'
    /\ nonDecreasing (builder st')
    /\ Forall (atOrBefore ln (charIndex st')) (builder st').
Proof.
  revert st. induction parts as [|rawPart parts IH]; intros st Hn Hb.
  - exists st. done.
  - destruct (processPart_emits schema ln st rawPart)
      as (st1 & new & Hok & Hbuild & Hle & Hw).
    cbn [forOf]. rewrite Hok. cbn.
    apply IH; rewrite Hbuild.
    + eapply nonDecreasing_app; eassumption.
    + apply Forall_app. split.
      * eapply Forall_impl; [exact Hb|]. intros t. by apply atOrBefore_mono.
      * by eapply within_atOrBefore.
Qed.

Lemma processLine_ordered ln st rawLine :
  nonDecreasing (builder st) ->
  Forall (fun t => tokLine t < ln) (builder st) ->
  exists st',
    processLine schema ln st rawLine = Ok st'
    /\ nonDecreasing (builder st')
    /\ Forall (fun t => tokLine t < S ln) (builder st').
Proof.
  intros Hn Hb. unfold processLine.
  destruct (length (Str.trim (stripComment rawLine)) =? 0).
  - exists st. split; [done|]. split; [done|].
    eapply Forall_impl; [exact Hb|]. simpl. lia.
  - destruct (parts_ordered ln (Str.splitWs (stripComment rawLine))
                (startLine st)) as (st' & Hok & Hn' & Hb').
    + exact Hn.
    + eapply Forall_impl; [exact Hb|]. intros t ?. by left.
    + exists st'. split; [done|]. split; [done|].
      eapply Forall_impl; [exact Hb'|]. intros t [?|[? _]]; lia.
Qed.

Lemma lineAt_inside document k :
  k < lineCount document -> exists text, lineAt document k = Ok text.
Proof.
  intros [text H]%lookup_lt_is_Some_2. exists text.
  unfold lineAt. by rewrite H.
Qed.

(** The invariant of the loop over the lines, started at line [k] with
    [n] lines to go. *)
Lemma lines_ordered document n k st :
  k + n = lineCount document ->
  nonDecreasing (builder st) ->
  Forall (fun t => tokLine t < k) (builder st) ->
  exists st',
    forOf (fun st lineNumber =>
             rawLine ← lineAt document lineNumber;
             processLine schema lineNumber st rawLine) (seq k n) st = Ok st'
    /\ nonDecreasing (builder st').
Proof.
  revert k st. induction n as [|n IH]; intros k st Hk Hn Hb.
  - exists st. done.
  - destruct (lineAt_inside document k) as [text Hat]; [lia|].
    cbn [seq forOf]. rewrite Hat. cbn.
    destruct (processLine_ordered k st text Hn Hb) as (st1 & -> & Hn1 & Hb1).
    cbn. apply IH; [lia | done | done].
Qed.

Lemma scanDocument_ordered document :
  exists st,
    scanDocument schema document initialScan = Ok st
    /\ nonDecreasing (builder st).
Proof.
  apply lines_ordered; [done | exact I | constructor].
Qed.

Lemma provideDocumentSemanticTokens_total document :
  exists tokens, provideDocumentSemanticTokens schema document = Ok tokens.
Proof.
  destruct (scanDocument_ordered document) as (st & Hok & _).
  exists (builder st). unfold provideDocumentSemanticTokens. by rewrite Hok.
Qed.

End Ordering.

(** C2. For every document and every schema snapshot the scan returns a
    token list, and in that list every token is on a later line than the
    token pushed before it, or on the same line at the same or a later
    start column. *)
Theorem C2_tokens_nonDecreasing (schema : Schema) (document : TextDocument) :
  exists tokens,
    provideDocumentSemanticTokens schema document = Ok tokens
    /\ nonDecreasing tokens.
Proof.
  destruct (scanDocument_ordered schema document) as (st & Hok & Hn).
  exists (builder st). unfold provideDocumentSemanticTokens.
  rewrite Hok. done.
Qed.

(** ** Facts about characters, keywords and cleaning *)

Section CleaningFacts.

Implicit Types (s : str) (c : ascii).

Lemma toLowerCase_isLetter c :
  Char.isLetterOrUnderscore (Char.toLowerCase c) = Char.isLetterOrUnderscore c.
Proof. destruct c as [[] [] [] [] [] [] [] []]; reflexivity. Qed.

Lemma toLowerCase_isDot c : Char.isDot (Char.toLowerCase c) = Char.isDot c.
Proof. destruct c as [[] [] [] [] [] [] [] []]; reflexivity. Qed.

Lemma letter_kept c :
  Char.isLetterOrUnderscore c = true ->
  Char.isWhiteSpace c = false /\ Char.isSeparator c = false
  /\ Char.isQuote c = false /\ Char.isDot c = false.
Proof. destruct c as [[] [] [] [] [] [] [] []]; vm_compute; intuition discriminate. Qed.

Lemma hasLetter_toLowerCase s :
  Str.hasLetter (Str.toLowerCase s) = Str.hasLetter s.
Proof.
  unfold Str.hasLetter, Str.toLowerCase.
  induction s as [|c r IH]; [done|].
  cbn [map existsb]. by rewrite toLowerCase_isLetter, IH.
Qed.

Lemma includesDot_toLowerCase s :
  Str.includesDot (Str.toLowerCase s) = Str.includesDot s.
Proof.
  unfold Str.includesDot, Str.toLowerCase.
  induction s as [|c r IH]; [done|].
  cbn [map existsb]. by rewrite toLowerCase_isDot, IH.
Qed.

Lemma has_keyword_In s : has SQL_KEYWORDS s = true <-> In s keywordList.
Proof.
  unfold has, SQL_KEYWORDS. rewrite bool_decide_eq_true, elem_of_list_to_set.
  apply list_elem_of_In.
Qed.

(** No keyword contains a dot, and every keyword contains a letter. *)
Lemma keyword_shape s :
  has SQL_KEYWORDS s = true ->
  Str.includesDot s = false /\ Str.hasLetter s = true.
Proof.
  intros H%has_keyword_In.
  assert (Hall : forallb (fun k => negb (Str.includesDot k) && Str.hasLetter k)
                         keywordList = true) by (vm_compute; reflexivity).
  rewrite forallb_forall in Hall. apply Hall in H.
  apply andb_prop in H as [H1 H2]. by apply negb_true_iff in H1.
Qed.

Lemma eqb_eq (a b : str) : Str.eqb a b = true <-> a = b.
Proof. unfold Str.eqb. apply bool_decide_eq_true. Qed.

(** A string that is not in the keyword set is none of the four
    keywords that are tested first. *)
Lemma not_keyword_tests s :
  has SQL_KEYWORDS s = false ->
  Str.eqb s (js "select") = false
  /\ (Str.eqb s (js "from") || Str.eqb s (js "join")) = false
  /\ Str.eqb s (js "as") = false.
Proof.
  intros H.
  assert (Hk : forall k, In k keywordList -> Str.eqb s k = false).
  { intros k Hin. destruct (Str.eqb s k) eqn:E; [|done].
    apply eqb_eq in E as ->. apply has_keyword_In in Hin. congruence. }
  rewrite !Hk; [done|..]; vm_compute; tauto.
Qed.

Lemma dropWhile_keeps (p : ascii -> bool) s c :
  In c s -> p c = false -> In c (Str.dropWhile p s).
Proof.
  induction s as [|a r IH]; [done|]. intros [->|Hin] Hc; simpl.
  - rewrite Hc. by left.
  - destruct (p a); [by apply IH | by right].
Qed.

Lemma dropWhileEnd_keeps (p : ascii -> bool) s c :
  In c s -> p c = false -> In c (Str.dropWhileEnd p s).
Proof.
  intros Hin Hc. unfold Str.dropWhileEnd. rewrite <- in_rev.
  apply dropWhile_keeps; [by rewrite <- in_rev | done].
Qed.

Lemma trim_keeps s c :
  In c s -> Char.isWhiteSpace c = false -> In c (Str.trim s).
Proof.
  intros. unfold Str.trim.
  apply dropWhileEnd_keeps; [|done]. by apply dropWhile_keeps.
Qed.

(** A fragment whose cleaned text has a letter is not blank. *)
Lemma hasLetter_not_blank s :
  Str.hasLetter (cleanIdentifier s) = true ->
  (length s =? 0) = false /\ (length (Str.trim s) =? 0) = false.
Proof.
  intros (c & Hin & Hc)%existsb_exists.
  apply cleanIdentifier_In in Hin. apply letter_kept in Hc as (Hws & _).
  pose proof (trim_keeps s c Hin Hws) as Ht.
  split; apply Nat.eqb_neq; intros Hz.
  - destruct s; [done | discriminate].
  - destruct (Str.trim s); [done | discriminate].
Qed.

Lemma hasLetter_nonEmpty s : Str.hasLetter s = true -> nonEmpty s = true.
Proof. by destruct s. Qed.

(** [split(".")] gives a single piece exactly when there is no dot. *)
Lemma splitDot_no_dot s : Str.includesDot s = false -> Str.splitDot s = [s].
Proof.
  induction s as [|c r IH]; [done|].
  cbn [Str.includesDot existsb Str.splitDot].
  intros [Hc Hr]%orb_false_elim. rewrite Hc.
  unfold Str.includesDot in IH. by rewrite (IH Hr).
Qed.

Lemma splitDot_two s a b rest :
  Str.splitDot s = a :: b :: rest -> Str.includesDot s = true.
Proof.
  intros H. destruct (Str.includesDot s) eqn:E; [done|].
  apply splitDot_no_dot in E. congruence.
Qed.

Lemma splitDot_nonempty s : Str.splitDot s <> [].
Proof.
  destruct s as [|c r]; [done|]. simpl.
  destruct (Char.isDot c); [done|]. by destruct (Str.splitDot r).
Qed.

(** The first piece is a prefix of the string. *)
Lemma splitDot_head_In s a rest c :
  Str.splitDot s = a :: rest -> In c a -> In c s.
Proof.
  revert a rest. induction s as [|x r IH]; intros a rest.
  - intros [= <- <-]. done.
  - simpl. destruct (Char.isDot x).
    + intros [= <- <-]. done.
    + destruct (Str.splitDot r) as [|h t] eqn:E.
      * intros [= <- <-]. simpl. tauto.
      * intros [= <- <-]. intros [->|Hin]; [by left|].
        right. by eapply IH.
Qed.

Lemma splitDotLimit_two s a b :
  Str.splitDotLimit 2 s = [a; b] ->
  Str.includesDot s = true /\ (forall c, In c a -> In c s).
Proof.
  unfold Str.splitDotLimit.
  destruct (Str.splitDot s) as [|x [|y rest]] eqn:E; try done.
  cbn. intros [= <- <-]. split.
  - by eapply splitDot_two.
  - intros c. by eapply splitDot_head_In.
Qed.

End CleaningFacts.

(** ** The rules of the scanner, one lemma each *)

Section Rules.

Variable schema : Schema.
Variable lineNumber : nat.

(** A fragment the aggregate pattern does not match, with a letter in
    its cleaned text, reaches the keyword and identifier rules. *)
Lemma processPart_classify st rawPart :
  FuncCall.exec rawPart = None ->
  Str.hasLetter (cleanIdentifier rawPart) = true ->
  processPart schema lineNumber st rawPart
  = Ok (classifyFragment schema lineNumber st rawPart).
Proof.
  intros He (H0 & Ht)%hasLetter_not_blank.
  unfold processPart. by rewrite H0, Ht, He.
Qed.

(** A fragment with no letter in its cleaned text only moves
    [charIndex]. *)
Lemma processPart_skip st rawPart :
  FuncCall.exec rawPart = None ->
  Str.hasLetter (cleanIdentifier rawPart) = false ->
  exists st',
    processPart schema lineNumber st rawPart = Ok st'
    /\ builder st' = builder st /\ mode st' = mode st
    /\ aliasMap st' = aliasMap st /\ lastTableName st' = lastTableName st
    /\ lastWasAs st' = lastWasAs st.
Proof.
  intros He Hl. unfold processPart, classifyFragment. rewrite He, Hl.
  destruct (length rawPart =? 0); [by eexists|].
  destruct (length (Str.trim rawPart) =? 0); [by eexists|].
  destruct (negb (nonEmpty (cleanIdentifier rawPart))); by eexists.
Qed.

(** Rule 3: a keyword pushes no token and touches neither the alias map
    nor the pending table name. *)
Lemma classifyFragment_keyword st rawPart :
  has SQL_KEYWORDS (Str.toLowerCase (cleanIdentifier rawPart)) = true ->
  let st' := classifyFragment schema lineNumber st rawPart in
  builder st' = builder st /\ aliasMap st' = aliasMap st
  /\ lastTableName st' = lastTableName st
  /\ charIndex st' = charIndex st + length rawPart
  /\ (Str.toLowerCase (cleanIdentifier rawPart) <> js "select" ->
      mode st = mode_from -> mode st' = mode_from).
Proof.
  intros Hk. unfold classifyFragment.
  destruct (negb (nonEmpty (cleanIdentifier rawPart))); [done|].
  destruct (negb (Str.hasLetter (cleanIdentifier rawPart))); [done|].
  destruct (Str.eqb _ (js "select")) eqn:Es.
  { apply eqb_eq in Es. cbn. tauto. }
  destruct (Str.eqb _ (js "from") || Str.eqb _ (js "join")); [done|].
  destruct (Str.eqb _ (js "as")); [done|].
  rewrite Hk. done.
Qed.

(** Rules 4 to 6 are reached by the fragments that are not keywords. *)
Lemma classifyFragment_identifier st rawPart :
  Str.hasLetter (cleanIdentifier rawPart) = true ->
  has SQL_KEYWORDS (Str.toLowerCase (cleanIdentifier rawPart)) = false ->
  classifyFragment schema lineNumber st rawPart
  = if lastWasAs st && bool_decide (mode st = mode_select)
    then advance rawPart
           (setLastWasAs false
              (setBuilder (builder st ++ [tokenOf lineNumber (charIndex st)
                                            (length rawPart) column]) st))
    else match dottedIdentifier schema lineNumber (setLastWasAs false st)
                 rawPart (cleanIdentifier rawPart) with
         | Some st2 => st2
         | None => bareIdentifier schema lineNumber (setLastWasAs false st)
                     rawPart (Str.toLowerCase (cleanIdentifier rawPart))
         end.
Proof.
  intros Hl Hk. unfold classifyFragment.
  rewrite (hasLetter_nonEmpty _ Hl), Hl, Hk.
  destruct (not_keyword_tests _ Hk) as (-> & -> & ->).
  cbn [negb]. by rewrite addToken_tokenOf.
Qed.

(** Rule 5 fires on a cleaned text whose first two pieces are both
    non-empty. *)
Lemma dottedIdentifier_fires st rawPart left right :
  Str.splitDotLimit 2 (cleanIdentifier rawPart) = [left; right] ->
  left <> [] -> right <> [] ->
  exists dot,
    Str.indexOf (js ".") rawPart = Some dot
    /\ dottedIdentifier schema lineNumber st rawPart (cleanIdentifier rawPart)
       = Some (advance rawPart
           (setBuilder
              (builder st
               ++ (if has (KNOWN_TABLES schema)
                        (default (Str.toLowerCase left)
                           (aliasMap st !! Str.toLowerCase left))
                      || bool_decide (mode st = mode_from)
                      || bool_decide (mode st = mode_select)
                   then [tokenOf lineNumber (charIndex st) (length left) table]
                   else [])
               ++ (if Str.hasLetter right
                   then [tokenOf lineNumber (charIndex st + dot + 1)
                                 (length right) column]
                   else [])) st)).
Proof.
  intros Hsplit Hl Hr.
  destruct (splitDotLimit_two _ _ _ Hsplit) as [Hdot _].
  assert (Hraw : Str.includesDot rawPart = true).
  { apply includesDot_In in Hdot as (c & Hin & Hc).
    apply includesDot_In. exists c. split; [|done].
    by apply cleanIdentifier_In. }
  destruct (indexOf_dot_includes _ Hraw) as [dot Hidx].
  exists dot. split; [done|].
  unfold dottedIdentifier. rewrite Hdot, Hsplit, Hidx.
  cbn [lookup list_lookup].
  assert (nonEmpty left && nonEmpty right = true) as ->.
  { by destruct left, right. }
  rewrite hasLetter_toLowerCase, !addToken_tokenOf.
  do 2 f_equal. f_equal.
  destruct (has _ _ || _ || _); destruct (Str.hasLetter right);
    rewrite ?app_nil_r, <- ?app_assoc; reflexivity.
Qed.

Lemma dottedIdentifier_keeps st rawPart cleaned st' :
  dottedIdentifier schema lineNumber st rawPart cleaned = Some st' ->
  mode st' = mode st /\ aliasMap st' = aliasMap st
  /\ lastTableName st' = lastTableName st.
Proof.
  unfold dottedIdentifier.
  repeat match goal with
         | |- context [if ?c then _ else _] => destruct c; try done
         | |- context [match ?o with Some _ => _ | None => _ end] =>
             destruct o; try done
         end; intros [= <-]; done.
Qed.

(** A dotted fragment that neither the aggregate shortcut nor the rule
    for the alias after [AS] consumes. *)
Lemma processPart_dotted st rawPart left right :
  FuncCall.exec rawPart = None ->
  lastWasAs st && bool_decide (mode st = mode_select) = false ->
  Str.hasLetter (cleanIdentifier rawPart) = true ->
  Str.splitDotLimit 2 (cleanIdentifier rawPart) = [left; right] ->
  left <> [] -> right <> [] ->
  exists dot st',
    Str.indexOf (js ".") rawPart = Some dot
    /\ processPart schema lineNumber st rawPart = Ok st'
    /\ builder st'
       = builder st
         ++ (if has (KNOWN_TABLES schema)
                  (default (Str.toLowerCase left)
                     (aliasMap st !! Str.toLowerCase left))
                || bool_decide (mode st = mode_from)
                || bool_decide (mode st = mode_select)
             then [tokenOf lineNumber (charIndex st) (length left) table]
             else [])
         ++ (if Str.hasLetter right
             then [tokenOf lineNumber (charIndex st + dot + 1)
                           (length right) column]
             else []).
Proof.
  intros He Has Hl Hsplit Hleft Hright.
  destruct (splitDotLimit_two _ _ _ Hsplit) as [Hdot _].
  assert (Hk : has SQL_KEYWORDS (Str.toLowerCase (cleanIdentifier rawPart))
               = false).
  { destruct (has SQL_KEYWORDS _) eqn:E; [|done].
    apply keyword_shape in E as [E _].
    rewrite includesDot_toLowerCase in E. congruence. }
  destruct (dottedIdentifier_fires (setLastWasAs false st) rawPart left right
              Hsplit Hleft Hright) as (dot & Hidx & Hfire).
  exists dot. eexists. split; [done|].
  rewrite processPart_classify, classifyFragment_identifier by done.
  rewrite Has, Hfire. split; reflexivity.
Qed.

End Rules.

(** C3. The scan returns a token list for every document and every schema
    snapshot; no fragment makes it throw, a fragment only ever adds tokens
    to those pushed before it, and a fragment that the aggregate pattern
    does not match and whose cleaned text has no letter or underscore adds
    none and changes neither the mode nor the alias map. *)
Theorem C3_scan_never_throws :
  (forall schema document,
      exists tokens, provideDocumentSemanticTokens schema document = Ok tokens)
  /\ (forall schema lineNumber st rawPart,
         exists st' new,
           processPart schema lineNumber st rawPart = Ok st'
           /\ builder st' = builder st ++ new)
  /\ (forall schema lineNumber st rawPart,
         FuncCall.exec rawPart = None ->
         Str.hasLetter (cleanIdentifier rawPart) = false ->
         exists st',
           processPart schema lineNumber st rawPart = Ok st'
           /\ builder st' = builder st /\ mode st' = mode st
           /\ aliasMap st' = aliasMap st).
Proof.
  split; [|split].
  - apply provideDocumentSemanticTokens_total.
  - intros schema ln st rawPart.
    destruct (processPart_emits schema ln st rawPart) as (st' & new & ? & ? & _).
    eauto.
  - intros schema ln st rawPart He Hl.
    destruct (processPart_skip schema ln st rawPart He Hl)
      as (st' & ? & ? & ? & ? & _).
    eauto.
Qed.

(** The third part of C3 at the fragment [")("], unbalanced and without a
    letter. *)
Lemma C3_scan_never_throws_witness :
  exists st',
    processPart emptySchema 0 initialScan (js ")(") = Ok st'
    /\ builder st' = builder initialScan /\ mode st' = mode initialScan
    /\ aliasMap st' = aliasMap initialScan.
Proof.
  destruct C3_scan_never_throws as (_ & _ & H).
  apply (H emptySchema 0 initialScan (js ")(")); reflexivity.
Defined.

(** ** The example of the specification *)

(** C1. For the one-line example document and the schema
    [{accounts(id,name), orders(id,account_id,total_amt_usd)}] the scan
    returns thirteen tokens: [a] Table and [name] Column for [a.name];
    [o] Table and [total_amt_usd] Column from inside [SUM(...)];
    [total_sales] Column after [AS]; [accounts] Table and its alias [a]
    Table; [orders] Table and its alias [o] Table; and a Table and a
    Column token for each of [a.id] and [o.account_id]. *)
Theorem C1_example_tokens :
  exists tokens,
    provideDocumentSemanticTokens exampleSchema exampleDocument = Ok tokens
    /\ map (describe exampleDocument) tokens
       = [ (7, "a", Some table); (9, "name", Some column);
           (19, "o", Some table); (21, "total_amt_usd", Some column);
           (39, "total_sales", Some column);
           (56, "accounts", Some table); (65, "a", Some table);
           (72, "orders", Some table); (79, "o", Some table);
           (84, "a", Some table); (86, "id", Some column);
           (91, "o", Some table); (93, "account_id", Some column) ].
Proof.
  eexists. split; [vm_compute; reflexivity|]. vm_compute. reflexivity.
Qed.

(** ** An aggregate name separated from its parenthesis *)

Section SplitAggregate.

Variable schema : Schema.
Variable lineNumber : nat.

(** A keyword other than [select], [from], [join] and [as]. *)
Lemma classifyFragment_other_keyword st rawPart :
  let lower := Str.toLowerCase (cleanIdentifier rawPart) in
  has SQL_KEYWORDS lower = true ->
  Str.eqb lower (js "select") = false ->
  Str.eqb lower (js "from") || Str.eqb lower (js "join") = false ->
  Str.eqb lower (js "as") = false ->
  classifyFragment schema lineNumber st rawPart
  = advance rawPart (setLastWasAs false st).
Proof.
  intros lower Hk Hs Hf Ha. unfold classifyFragment. fold lower.
  destruct (keyword_shape _ Hk) as [_ Hl].
  unfold lower in Hl. rewrite hasLetter_toLowerCase in Hl.
  by rewrite (hasLetter_nonEmpty _ Hl), Hl, Hs, Hf, Ha, Hk.
Qed.

Lemma processPart_SUM st :
  processPart schema lineNumber st (js "SUM")
  = Ok (advance (js "SUM") (setLastWasAs false st)).
Proof.
  rewrite processPart_classify by (vm_compute; reflexivity).
  by rewrite classifyFragment_other_keyword by (vm_compute; reflexivity).
Qed.

Lemma processPart_space st :
  processPart schema lineNumber st (js " ") = Ok (advance (js " ") st).
Proof. reflexivity. Qed.

Lemma processPart_paren_x st :
  processPart schema lineNumber st (js "(x)")
  = Ok (if lastWasAs st && bool_decide (mode st = mode_select)
        then advance (js "(x)")
               (setLastWasAs false
                  (setBuilder (builder st ++ [tokenOf lineNumber (charIndex st)
                                                3 column]) st))
        else bareIdentifier schema lineNumber (setLastWasAs false st)
               (js "(x)") (js "x")).
Proof.
  rewrite processPart_classify by (vm_compute; reflexivity).
  by rewrite classifyFragment_identifier by (vm_compute; reflexivity).
Qed.

Lemma processPart_SUM_x st :
  processPart schema lineNumber st (js "SUM(x)")
  = Ok (advance (js "SUM(x)")
          (setBuilder (builder st ++ [tokenOf lineNumber (charIndex st + 4)
                                        1 column]) st)).
Proof. reflexivity. Qed.

End SplitAggregate.

(** C8. The line [SUM (x)] is cut into the fragments [SUM], a space and
    [(x)].  The aggregate pattern matches neither [SUM] nor [(x)].  [SUM]
    is handled as a keyword: it pushes no token and only clears the
    pending [AS].  [(x)] is cleaned to [x] and handled by the rule for
    plain identifiers, with the length of the whole fragment.  Written
    without the space, [SUM(x)] is one fragment that the shortcut
    consumes, pushing a Column token for [x] alone. *)
Theorem C8_aggregate_split_by_space (schema : Schema) (lineNumber : nat)
    (st : Scan) :
  Str.splitWs (js "SUM (x)") = [js "SUM"; js " "; js "(x)"]
  /\ FuncCall.exec (js "SUM") = None
  /\ FuncCall.exec (js "(x)") = None
  /\ processPart schema lineNumber st (js "SUM")
     = Ok (advance (js "SUM") (setLastWasAs false st))
  /\ cleanIdentifier (js "(x)") = js "x"
  /\ forOf (processPart schema lineNumber) (Str.splitWs (js "SUM (x)")) st
     = Ok (bareIdentifier schema lineNumber
             (advance (js " ") (advance (js "SUM") (setLastWasAs false st)))
             (js "(x)") (js "x"))
  /\ processPart schema lineNumber st (js "SUM(x)")
     = Ok (advance (js "SUM(x)")
             (setBuilder (builder st ++ [tokenOf lineNumber (charIndex st + 4)
                                           1 column]) st)).
Proof.
  split; [reflexivity|]. split; [reflexivity|]. split; [reflexivity|].
  split; [apply processPart_SUM|]. split; [reflexivity|].
  split; [|apply processPart_SUM_x].
  change (Str.splitWs (js "SUM (x)")) with [js "SUM"; js " "; js "(x)"].
  cbn [forOf]. rewrite processPart_SUM. cbn [mbind result_bind].
  rewrite processPart_space. cbn [mbind result_bind].
  rewrite processPart_paren_x. cbn [mbind result_bind].
  reflexivity.
Qed.

(** ** Letter case *)

(** C10.  The documents [SUM(s)] and [sum(s)] differ only in letter case,
    and their token lists differ: the Column token for [s] starts at
    column 4 in the first and at column 0 in the second, where
    [rawPart.indexOf] finds the [s] of [sum]. *)
Theorem C10_case_changes_token_position :
  caseVariant {| lines := [js "SUM(s)"] |} {| lines := [js "sum(s)"] |}
  /\ provideDocumentSemanticTokens emptySchema {| lines := [js "SUM(s)"] |}
     = Ok [tokenOf 0 4 1 column]
  /\ provideDocumentSemanticTokens emptySchema {| lines := [js "sum(s)"] |}
     = Ok [tokenOf 0 0 1 column].
Proof. repeat split; vm_compute; reflexivity. Qed.

(** ** The pending table name *)

(** The claim C4 fails on [FROM accounts WHERE x]: the keyword [WHERE]
    leaves [accounts] pending, and [x] is recorded as its alias and pushed
    as a Table token. *)
Lemma C4_alias_recorded_after_keyword :
  exists st,
    scanDocument exampleSchema {| lines := [js "FROM accounts WHERE x"] |}
                 initialScan = Ok st
    /\ aliasMap st !! js "x" = Some (js "accounts")
    /\ builder st = [tokenOf 0 5 8 table; tokenOf 0 20 1 table].
Proof.
  eexists. split; [vm_compute; reflexivity|].
  split; vm_compute; reflexivity.
Qed.

(** C4, amended.  In FROM mode with a table name pending, a keyword
    fragment other than [select] pushes no token and leaves the alias map
    and the pending name as they are; the plain identifier that follows
    it, if it is not a known table, is then recorded in the alias map as
    an alias of the pending table, pushed as a Table token, and the
    pending name is consumed.  A pending name that is not consumed is
    dropped when the next line starts. *)
Theorem C4_pending_table_survives_keyword (schema : Schema) (lineNumber : nat)
    (st : Scan) (kw x t : str) :
  mode st = mode_from ->
  lastTableName st = Some t -> t <> [] ->
  FuncCall.exec kw = None ->
  has SQL_KEYWORDS (Str.toLowerCase (cleanIdentifier kw)) = true ->
  Str.toLowerCase (cleanIdentifier kw) <> js "select" ->
  FuncCall.exec x = None ->
  Str.hasLetter (cleanIdentifier x) = true ->
  Str.includesDot (cleanIdentifier x) = false ->
  has SQL_KEYWORDS (Str.toLowerCase (cleanIdentifier x)) = false ->
  has (KNOWN_TABLES schema) (Str.toLowerCase (cleanIdentifier x)) = false ->
  exists st1 st2,
    processPart schema lineNumber st kw = Ok st1
    /\ builder st1 = builder st
    /\ aliasMap st1 = aliasMap st
    /\ lastTableName st1 = Some t
    /\ processPart schema lineNumber st1 x = Ok st2
    /\ aliasMap st2
       = <[Str.toLowerCase (cleanIdentifier x) := t]> (aliasMap st)
    /\ lastTableName st2 = None
    /\ builder st2
       = builder st ++ [tokenOf lineNumber (charIndex st1) (length x) table]
    /\ lastTableName (startLine st1) = None.
Proof.
  intros Hmode Hlast Ht Hekw Hkw Hsel Hex Hlx Hdot Hnk Hnt.
  destruct (keyword_shape _ Hkw) as [_ Hlkw].
  rewrite hasLetter_toLowerCase in Hlkw.
  pose proof (classifyFragment_keyword schema lineNumber st kw Hkw)
    as (Hb & Ha & Hl & _ & Hm).
  specialize (Hm Hsel Hmode).
  set (st1 := classifyFragment schema lineNumber st kw) in *.
  exists st1. eexists.
  split; [by apply processPart_classify|].
  split; [done|]. split; [done|]. split; [congruence|].
  split.
  { rewrite processPart_classify, classifyFragment_identifier by done.
    reflexivity. }
  rewrite Hm. rewrite andb_false_r.
  unfold dottedIdentifier. rewrite Hdot.
  unfold bareIdentifier, aliasDetection.
  cbn [mode setLastWasAs lastTableName aliasMap builder charIndex].
  rewrite Hm, Hnt, Hl, Hlast, Hnk.
  rewrite (bool_decide_eq_true_2 (mode_from = mode_from)) by done.
  assert (nonEmpty t = true) as Hne by (by destruct t).
  cbn [truthy]. rewrite Hne.
  cbn. rewrite Ha, Hb, addToken_tokenOf. done.
Qed.

(** C4 at the fragments [WHERE] and [x] of [FROM accounts WHERE x]. *)
Lemma C4_pending_table_survives_keyword_witness :
  exists st1 st2,
    processPart exampleSchema 0 afterFromAccounts (js "WHERE") = Ok st1
    /\ builder st1 = builder afterFromAccounts
    /\ aliasMap st1 = aliasMap afterFromAccounts
    /\ lastTableName st1 = Some (js "accounts")
    /\ processPart exampleSchema 0 st1 (js "x") = Ok st2
    /\ aliasMap st2
       = <[Str.toLowerCase (cleanIdentifier (js "x")) := js "accounts"]>
           (aliasMap afterFromAccounts)
    /\ lastTableName st2 = None
    /\ builder st2
       = builder afterFromAccounts
         ++ [tokenOf 0 (charIndex st1) (length (js "x")) table]
    /\ lastTableName (startLine st1) = None.
Proof.
  apply (C4_pending_table_survives_keyword exampleSchema 0 afterFromAccounts
           (js "WHERE") (js "x") (js "accounts"));
    try (vm_compute; reflexivity); vm_compute; discriminate.
Defined.

(** ** Dotted identifiers *)

(** The claim C6 fails on [SELECT x AS a.b]: the fragment [a.b] cleans to
    a dotted identifier and is not an aggregate call, the mode is
    SelectClause, and yet no Table token is pushed for [a]; the rule for
    the alias after [AS] pushes one Column token over the whole
    fragment. *)
Lemma C6_dotted_after_as_is_one_column :
  FuncCall.exec (js "a.b") = None
  /\ Str.splitDotLimit 2 (cleanIdentifier (js "a.b")) = [js "a"; js "b"]
  /\ mode afterSelectXAs = mode_select
  /\ (exists st',
        processPart emptySchema 0 afterSelectXAs (js "a.b") = Ok st'
        /\ builder st' = builder afterSelectXAs ++ [tokenOf 0 12 3 column])
  /\ provideDocumentSemanticTokens emptySchema
       {| lines := [js "SELECT x AS a.b"] |}
     = Ok [tokenOf 0 7 1 column; tokenOf 0 12 3 column].
Proof.
  split; [reflexivity|]. split; [reflexivity|]. split; [reflexivity|].
  split; [|vm_compute; reflexivity].
  eexists. split; vm_compute; reflexivity.
Qed.

(** C6, amended.  Take a fragment that the aggregate shortcut does not
    match, that is not the alias after [AS] (a pending [AS] in
    SelectClause mode), and whose cleaned text is an identifier (it has a
    letter or underscore) with non-empty pieces [left] and [right] around
    its first dot.  Then the fragment pushes exactly: a Table token for
    [left] if and only if [left], resolved through the alias map and
    falling back to itself, is a known table, or the mode is FromClause,
    or the mode is SelectClause; followed by a Column token for [right]
    if and only if [right] has a letter or underscore. *)
Theorem C6_dotted_identifier (schema : Schema) (lineNumber : nat) (st : Scan)
    (rawPart left right : str) :
  FuncCall.exec rawPart = None ->
  lastWasAs st && bool_decide (mode st = mode_select) = false ->
  Str.hasLetter (cleanIdentifier rawPart) = true ->
  Str.splitDotLimit 2 (cleanIdentifier rawPart) = [left; right] ->
  left <> [] -> right <> [] ->
  exists dot st',
    Str.indexOf (js ".") rawPart = Some dot
    /\ processPart schema lineNumber st rawPart = Ok st'
    /\ builder st'
       = builder st
         ++ (if has (KNOWN_TABLES schema)
                  (default (Str.toLowerCase left)
                     (aliasMap st !! Str.toLowerCase left))
                || bool_decide (mode st = mode_from)
                || bool_decide (mode st = mode_select)
             then [tokenOf lineNumber (charIndex st) (length left) table]
             else [])
         ++ (if Str.hasLetter right
             then [tokenOf lineNumber (charIndex st + dot + 1)
                           (length right) column]
             else []).
Proof. apply processPart_dotted. Qed.

(** C6 at the fragment [o.id,] after [FROM orders o] with an empty
    schema. *)
Lemma C6_dotted_identifier_witness :
  exists dot st',
    Str.indexOf (js ".") (js "o.id,") = Some dot
    /\ processPart emptySchema 3 (setMode mode_from initialScan) (js "o.id,")
       = Ok st'
    /\ builder st'
       = [] ++ [tokenOf 3 0 1 table] ++ [tokenOf 3 (0 + dot + 1) 2 column].
Proof.
  apply (C6_dotted_identifier emptySchema 3 (setMode mode_from initialScan)
           (js "o.id,") (js "o") (js "id"));
    try (vm_compute; reflexivity); discriminate.
Defined.

(** ** Aliases in FROM mode *)

Section FromMode.

Variable schema : Schema.

Lemma classifyFragment_keeps_from lineNumber st rawPart :
  Str.toLowerCase (cleanIdentifier rawPart) <> js "select" ->
  mode st = mode_from ->
  mode (classifyFragment schema lineNumber st rawPart) = mode_from.
Proof.
  intros Hsel Hmode. unfold classifyFragment.
  destruct (negb (nonEmpty (cleanIdentifier rawPart))); [done|].
  destruct (negb (Str.hasLetter (cleanIdentifier rawPart))); [done|].
  destruct (Str.eqb _ (js "select")) eqn:Es.
  { by apply eqb_eq in Es. }
  destruct (Str.eqb _ (js "from") || Str.eqb _ (js "join")); [done|].
  destruct (Str.eqb _ (js "as")); [done|].
  destruct (has SQL_KEYWORDS _); [done|].
  destruct (lastWasAs st && _); [done|].
  destruct (dottedIdentifier _ _ _ _ _) as [st2|] eqn:Ed.
  - apply dottedIdentifier_keeps in Ed as (-> & _). done.
  - unfold bareIdentifier.
    destruct (aliasDetection _ _ _) as [detected st1] eqn:Ea.
    apply aliasDetection_keeps in Ea as (_ & _ & Hm).
    cbn [mode advance setBuilder]. by rewrite Hm.
Qed.

Lemma processPart_keeps_from lineNumber st rawPart :
  Str.toLowerCase (cleanIdentifier rawPart) <> js "select" ->
  mode st = mode_from ->
  exists st',
    processPart schema lineNumber st rawPart = Ok st'
    /\ mode st' = mode_from.
Proof.
  intros Hsel Hmode. unfold processPart.
  destruct (length rawPart =? 0); [by eexists|].
  destruct (length (Str.trim rawPart) =? 0); [by eexists|].
  destruct (FuncCall.exec rawPart) as [m|] eqn:Em.
  - apply exec_groups in Em as (whole & g1 & inner & -> & _).
    cbn [lookup list_lookup]. by eexists.
  - eexists. split; [done|]. by apply classifyFragment_keeps_from.
Qed.

(** Without a [select] keyword the mode stays FromClause, across
    fragments and lines. *)
Lemma steps_keep_from steps st :
  Forall notSelect steps ->
  mode st = mode_from ->
  exists st',
    forOf (runStep schema) steps st = Ok st' /\ mode st' = mode_from.
Proof.
  intros Hall. revert st.
  induction Hall as [|step steps Hstep _ IH]; intros st Hmode.
  - by exists st.
  - cbn [forOf]. destruct step as [lineNumber rawPart|].
    + destruct (processPart_keeps_from lineNumber st rawPart Hstep Hmode)
        as (st1 & Hok & Hm1).
      cbn [runStep]. rewrite Hok. cbn. by apply IH.
    + cbn. by apply IH.
Qed.

End FromMode.

Section FirstCharacter.

Implicit Types (s : str) (c : ascii).

Lemma dropWhile_app_last (p : ascii -> bool) s c :
  p c = false -> Str.dropWhile p (s ++ [c]) = Str.dropWhile p s ++ [c].
Proof.
  intros Hc. induction s as [|a r IH]; simpl; [by rewrite Hc|].
  by destruct (p a).
Qed.

Lemma dropWhileEnd_cons (p : ascii -> bool) s c :
  p c = false -> Str.dropWhileEnd p (c :: s) = c :: Str.dropWhileEnd p s.
Proof.
  intros Hc. unfold Str.dropWhileEnd. cbn [rev].
  by rewrite dropWhile_app_last, rev_unit.
Qed.

(** Cleaning keeps a leading letter in place. *)
Lemma cleanIdentifier_head c s :
  Char.isLetterOrUnderscore c = true ->
  exists x, cleanIdentifier (c :: s) = c :: x.
Proof.
  intros (Hws & Hsep & Hq & _)%letter_kept.
  unfold cleanIdentifier, removeSeparators, stripQuotes, Str.trim.
  cbn [List.filter Str.dropWhile]. rewrite Hsep. cbn [negb Str.dropWhile].
  rewrite Hq, dropWhileEnd_cons by done.
  cbn [Str.dropWhile]. rewrite Hws, dropWhileEnd_cons by done.
  eauto.
Qed.

Lemma splitDot_cons c s :
  Char.isDot c = false -> exists h t, Str.splitDot (c :: s) = (c :: h) :: t.
Proof.
  intros Hc. cbn [Str.splitDot]. rewrite Hc.
  destruct (Str.splitDot s); eauto.
Qed.

Lemma aggregate_initial c :
  In (Char.toLowerCase c) ["s"; "c"; "a"; "m"]%char ->
  Char.isLetterOrUnderscore c = true /\ c <> "o"%char.
Proof.
  destruct c as [[] [] [] [] [] [] [] []]; vm_compute; intros H;
    first [ split; [reflexivity | discriminate]
          | exfalso; intuition discriminate ].
Qed.

(** A fragment whose cleaned text starts with [o.] is not an aggregate
    call. *)
Lemma exec_none_o rawPart col :
  Str.splitDotLimit 2 (cleanIdentifier rawPart) = [js "o"; col] ->
  FuncCall.exec rawPart = None.
Proof.
  intros Hsplit. destruct (FuncCall.exec rawPart) as [m|] eqn:Em; [|done].
  exfalso.
  apply exec_first in Em as (c & r & -> & Hc).
  apply aggregate_initial in Hc as [Hletter Hno].
  destruct (cleanIdentifier_head c r Hletter) as [x Hx].
  apply letter_kept in Hletter as (_ & _ & _ & Hdot).
  destruct (splitDot_cons c x Hdot) as (h & t & Hs).
  unfold Str.splitDotLimit in Hsplit. rewrite Hx, Hs in Hsplit.
  change (js "o") with ["o"%char] in Hsplit.
  cbn [firstn] in Hsplit. congruence.
Qed.

End FirstCharacter.

Section AnyLaterStep.

Variable schema : Schema.

Lemma classifyFragment_keeps_mode_set lineNumber st rawPart :
  mode st <> mode_none ->
  mode (classifyFragment schema lineNumber st rawPart) <> mode_none.
Proof.
  intros Hmode. unfold classifyFragment.
  repeat match goal with
         | |- context [if ?c then _ else _] => destruct c; [done|]
         end.
  destruct (dottedIdentifier _ _ _ _ _) as [st2|] eqn:Ed.
  - apply dottedIdentifier_keeps in Ed as (-> & _). done.
  - unfold bareIdentifier.
    destruct (aliasDetection _ _ _) as [detected st1] eqn:Ea.
    apply aliasDetection_keeps in Ea as (_ & _ & Hm).
    cbn [mode advance setBuilder]. by rewrite Hm.
Qed.

(** Once a [select], [from] or [join] was seen the mode is never [none]
    again. *)
Lemma steps_keep_mode_set steps st :
  mode st <> mode_none ->
  exists st',
    forOf (runStep schema) steps st = Ok st' /\ mode st' <> mode_none.
Proof.
  revert st. induction steps as [|step steps IH]; intros st Hmode.
  - by exists st.
  - cbn [forOf]. destruct step as [lineNumber rawPart|]; [|cbn; by apply IH].
    cbn [runStep]. unfold processPart.
    destruct (length rawPart =? 0); [cbn; by apply IH|].
    destruct (length (Str.trim rawPart) =? 0); [cbn; by apply IH|].
    destruct (FuncCall.exec rawPart) as [m|] eqn:Em.
    + apply exec_groups in Em as (whole & g1 & inner & -> & _).
      cbn. by apply IH.
    + cbn. apply IH. by apply classifyFragment_keeps_mode_set.
Qed.

(** Whatever follows [orders o], the keyword [select] included, a
    fragment that cleans to [o.<col>] pushes a Table token for [o] unless
    it stands where the alias after [AS] is expected in a SELECT list. *)
Lemma alias_left_part_unless_after_as (line0 lineNumber : nat) (st0 : Scan)
    (later : list ScanStep) (rawPart col : str) :
  mode st0 = mode_from ->
  Str.splitDotLimit 2 (cleanIdentifier rawPart) = [js "o"; col] ->
  col <> [] ->
  exists st1,
    forOf (runStep schema)
          (PartStep line0 (js "orders") :: PartStep line0 (js " ")
           :: PartStep line0 (js "o") :: later) st0 = Ok st1
    /\ (lastWasAs st1 && bool_decide (mode st1 = mode_select) = false ->
        exists st2 rest,
          processPart schema lineNumber st1 rawPart = Ok st2
          /\ builder st2
             = builder st1 ++ tokenOf lineNumber (charIndex st1) 1 table :: rest).
Proof.
  intros Hmode Hsplit Hcol.
  destruct (steps_keep_mode_set
              (PartStep line0 (js "orders") :: PartStep line0 (js " ")
               :: PartStep line0 (js "o") :: later) st0)
    as (st1 & Hok & Hm1); [by rewrite Hmode|].
  exists st1. split; [done|]. intros Has.
  assert (Hletter : Str.hasLetter (cleanIdentifier rawPart) = true).
  { apply existsb_exists. exists "o"%char. split; [|reflexivity].
    destruct (splitDotLimit_two _ _ _ Hsplit) as [_ Hin].
    apply Hin. by left. }
  destruct (processPart_dotted schema lineNumber st1 rawPart (js "o") col)
    as (dot & st2 & _ & Hok2 & Hb); try done.
  { by eapply exec_none_o. }
  exists st2. eexists. split; [done|]. rewrite Hb.
  assert (bool_decide (mode st1 = mode_from)
          || bool_decide (mode st1 = mode_select) = true) as Hfs.
  { destruct (mode st1); done. }
  rewrite <- orb_assoc, Hfs, orb_true_r. cbn [app]. reflexivity.
Qed.

End AnyLaterStep.

(** C7.  Start in FROM mode and process the fragments [orders] and [o];
    then process any further fragments and lines of the statement, that
    is, any that do not contain the keyword [select].  Whatever the schema
    snapshot holds (in particular when it is empty), a following fragment
    that cleans to [o.<col>] with a non-empty [<col>] pushes first a Table
    token of length 1 at its start, for [o]. *)
Theorem C7_alias_left_part_is_table (schema : Schema) (line0 lineNumber : nat)
    (st0 : Scan) (later : list ScanStep) (rawPart col : str) :
  mode st0 = mode_from ->
  Forall notSelect later ->
  Str.splitDotLimit 2 (cleanIdentifier rawPart) = [js "o"; col] ->
  col <> [] ->
  exists st1 st2 rest,
    forOf (runStep schema)
          (PartStep line0 (js "orders") :: PartStep line0 (js " ")
           :: PartStep line0 (js "o") :: later) st0 = Ok st1
    /\ processPart schema lineNumber st1 rawPart = Ok st2
    /\ builder st2
       = builder st1 ++ tokenOf lineNumber (charIndex st1) 1 table :: rest.
Proof.
  intros Hmode Hlater Hsplit Hcol.
  destruct (steps_keep_from schema
              (PartStep line0 (js "orders") :: PartStep line0 (js " ")
               :: PartStep line0 (js "o") :: later) st0)
    as (st1 & Hok & Hm1); [|done|].
  { repeat (constructor; [vm_compute; discriminate|]). done. }
  assert (Hletter : Str.hasLetter (cleanIdentifier rawPart) = true).
  { apply existsb_exists. exists "o"%char. split; [|reflexivity].
    destruct (splitDotLimit_two _ _ _ Hsplit) as [_ Hin].
    apply Hin. by left. }
  destruct (processPart_dotted schema lineNumber st1 rawPart (js "o") col)
    as (dot & st2 & _ & Hok2 & Hb); try done.
  { by eapply exec_none_o. }
  { rewrite Hm1. apply andb_false_r. }
  exists st1, st2. eexists. split; [done|]. split; [done|].
  rewrite Hb, Hm1.
  rewrite (bool_decide_eq_true_2 (mode_from = mode_from)) by done.
  rewrite orb_true_r. cbn [orb app]. reflexivity.
Qed.

(** C7 with the empty schema: [FROM orders o], then [WHERE] on the next
    line, then the fragment [o.id]. *)
Lemma C7_alias_left_part_is_table_witness :
  exists st1 st2 rest,
    forOf (runStep emptySchema)
          (PartStep 0 (js "orders") :: PartStep 0 (js " ")
           :: PartStep 0 (js "o")
           :: [LineStep; PartStep 1 (js "WHERE"); PartStep 1 (js " ")])
          (setMode mode_from initialScan) = Ok st1
    /\ processPart emptySchema 1 st1 (js "o.id") = Ok st2
    /\ builder st2 = builder st1 ++ tokenOf 1 (charIndex st1) 1 table :: rest.
Proof.
  apply (C7_alias_left_part_is_table emptySchema 0 1
           (setMode mode_from initialScan)
           [LineStep; PartStep 1 (js "WHERE"); PartStep 1 (js " ")]
           (js "o.id") (js "id")).
  - reflexivity.
  - repeat constructor; vm_compute; discriminate.
  - reflexivity.
  - discriminate.
Defined.

(** ** The schema loader *)

Section Loader.

Lemma addTableRows_columns rows s :
  KNOWN_COLUMNS (fold_left addTableRow rows s) = KNOWN_COLUMNS s.
Proof.
  revert s. induction rows as [|r rows IH]; intros s; [done|].
  cbn [fold_left]. by rewrite IH.
Qed.

Lemma addTableRows_tables rows s :
  KNOWN_TABLES (fold_left addTableRow rows s)
  = list_to_set (map Str.toLowerCase rows) ∪ KNOWN_TABLES s.
Proof.
  revert s. induction rows as [|r rows IH]; intros s; cbn [fold_left map].
  - set_solver.
  - rewrite IH. cbn [KNOWN_TABLES addTableRow list_to_set]. set_solver.
Qed.

(** After the first loop every known table has an empty column set. *)
Lemma addTableRows_empty_sets rows s t :
  (forall u, u ∈ KNOWN_TABLES s -> TABLE_COLUMNS s !! u = Some ∅) ->
  t ∈ KNOWN_TABLES (fold_left addTableRow rows s) ->
  TABLE_COLUMNS (fold_left addTableRow rows s) !! t = Some ∅.
Proof.
  revert s. induction rows as [|r rows IH]; intros s Hs; cbn [fold_left].
  - apply Hs.
  - apply IH. intros u. cbn [KNOWN_TABLES TABLE_COLUMNS addTableRow].
    destruct (decide (u = Str.toLowerCase r)) as [->|Hne].
    + intros _. apply lookup_insert_eq.
    + intros Hu. rewrite lookup_insert_ne by done. apply Hs. set_solver.
Qed.

(** The first request of a session: whatever the load does, the request
    scans against the collections the load left behind. *)
Lemma classificationRequest_first db s document :
  schemaLoadPromise s = None ->
  classificationRequest db s document
  = let g := fst (loadSchemaFromDatabase db (globals s)) in
    ({| globals := g; schemaLoadPromise := Some (loadsStarted s);
        loadsStarted := S (loadsStarted s); pending := false;
        promiseFulfilled := true |},
     provideDocumentSemanticTokens g document).
Proof.
  intros Hp. unfold classificationRequest, ensureSchemaLoaded, settleLoad.
  rewrite Hp. cbn [pending globals schemaLoadPromise loadsStarted].
  by destruct (loadSchemaFromDatabase db (globals s)) as [g fulfilled].
Qed.

End Loader.

(** The claim C5 fails when the second catalog query fails: the request
    still gets its tokens, but the collections it reads are neither empty
    nor the ones before the load; the tables are known, each with an
    empty column set, and no column is. *)
Lemma C5_tables_without_columns :
  let s := fst (classificationRequest columnsFailDatabase initialSession
                                      exampleDocument) in
  snd (loadSchemaFromDatabase columnsFailDatabase emptySchema) = false
  /\ has (KNOWN_TABLES (globals s)) (js "accounts") = true
  /\ has (KNOWN_TABLES (globals s)) (js "orders") = true
  /\ KNOWN_COLUMNS (globals s) = ∅
  /\ TABLE_COLUMNS (globals s) !! js "orders" = Some ∅
  /\ globals s <> emptySchema
  /\ globals s <> globals initialSession.
Proof.
  assert (Hne : globals (fst (classificationRequest columnsFailDatabase
                                initialSession exampleDocument))
                <> emptySchema).
  { intros H.
    apply (f_equal (fun g => has (KNOWN_TABLES g) (js "accounts"))) in H.
    vm_compute in H. discriminate. }
  repeat split; try (vm_compute; reflexivity); exact Hne.
Qed.

(** C5, amended.  When the load started by the first request of a session
    fails, the error does not reach the request: it returns the tokens of
    the scan against the collections the load left behind.  Those are the
    previous collections if the connection failed and empty collections if
    the table query failed.  If the column query failed they are partly
    filled: the known tables are the lower-cased names the table query
    returned, every one of them has an empty column set, and no column is
    known.  If only closing the connection failed they are completely
    filled. *)
Theorem C5_failed_load_is_contained (db : Database) (s : Session)
    (document : TextDocument) :
  schemaLoadPromise s = None ->
  snd (loadSchemaFromDatabase db (globals s)) = false ->
  let s' := fst (classificationRequest db s document) in
  let g := globals s' in
  (exists tokens,
      snd (classificationRequest db s document) = Ok tokens
      /\ provideDocumentSemanticTokens g document = Ok tokens)
  /\ match connect db, queryTables db, queryColumns db with
     | Rejected, _, _ => g = globals s
     | Resolved _, Rejected, _ => g = emptySchema
     | Resolved _, Resolved tableRows, Rejected =>
         KNOWN_TABLES g = list_to_set (map Str.toLowerCase tableRows)
         /\ KNOWN_COLUMNS g = ∅
         /\ (forall t, t ∈ KNOWN_TABLES g -> TABLE_COLUMNS g !! t = Some ∅)
     | Resolved _, Resolved tableRows, Resolved colRows =>
         g = fold_left addColumnRow colRows
               (fold_left addTableRow tableRows emptySchema)
     end.
Proof.
  intros Hp Hfail. rewrite classificationRequest_first by done.
  cbn [fst snd globals]. split.
  { destruct (provideDocumentSemanticTokens_total
                (fst (loadSchemaFromDatabase db (globals s))) document)
      as [tokens Hok].
    exists tokens. done. }
  unfold loadSchemaFromDatabase, loadBody in *.
  destruct (connect db); [|done].
  destruct (queryTables db) as [tableRows|].
  - destruct (queryColumns db) as [colRows|].
    + by destruct (endClient db).
    + assert (fst (let '(s1, completed) :=
                     (fold_left addTableRow tableRows emptySchema, false) in
                   match endClient db with
                   | Resolved _ => (s1, completed)
                   | Rejected => (s1, false)
                   end)
              = fold_left addTableRow tableRows emptySchema) as ->.
      { by destruct (endClient db). }
      split; [|split].
      * rewrite addTableRows_tables. cbn [KNOWN_TABLES emptySchema].
        set_solver.
      * by rewrite addTableRows_columns.
      * intros t. apply addTableRows_empty_sets.
        cbn [KNOWN_TABLES emptySchema]. set_solver.
  - by destruct (endClient db).
Qed.

(** C5 at the database whose column query fails. *)
Lemma C5_failed_load_is_contained_witness :
  let s' := fst (classificationRequest columnsFailDatabase initialSession
                                       exampleDocument) in
  let g := globals s' in
  (exists tokens,
      snd (classificationRequest columnsFailDatabase initialSession
                                 exampleDocument) = Ok tokens
      /\ provideDocumentSemanticTokens g exampleDocument = Ok tokens)
  /\ KNOWN_TABLES g
     = list_to_set (map Str.toLowerCase [js "accounts"; js "orders"])
  /\ KNOWN_COLUMNS g = ∅
  /\ (forall t, t ∈ KNOWN_TABLES g -> TABLE_COLUMNS g !! t = Some ∅).
Proof.
  apply (C5_failed_load_is_contained columnsFailDatabase initialSession
           exampleDocument); reflexivity.
Defined.

(** ** Single flight *)

Section SingleFlight.

Variable db : Database.

Lemma sessionStep_invariant s e :
  notStarted s \/ startedOnce s ->
  let '(s', r) := sessionStep db s e in
  (notStarted s' \/ startedOnce s')
  /\ (startedOnce s -> startedOnce s')
  /\ (forall p, r = Some p -> p = 0 /\ startedOnce s').
Proof.
  unfold notStarted, startedOnce.
  destruct e; cbn [sessionStep].
  - unfold ensureSchemaLoaded. intros [[Hp Hl]|[Hp Hl]]; rewrite Hp.
    + cbn. rewrite Hl. split; [by right|]. split; [done|].
      by intros p [= <-].
    + split; [by right|]. split; [done|]. by intros p [= <-].
  - intros H. unfold settleLoad.
    destruct (pending s); [|naive_solver].
    destruct (loadSchemaFromDatabase db (globals s)). cbn. naive_solver.
Qed.

Lemma runSession_invariant es s :
  notStarted s \/ startedOnce s ->
  let '(s', promises) := runSession db s es in
  (notStarted s' \/ startedOnce s')
  /\ Forall (fun p => p = 0) promises
  /\ (startedOnce s \/ In EnsureCalled es -> startedOnce s').
Proof.
  revert s. induction es as [|e es IH]; intros s Hs.
  - cbn. split; [done|]. split; [constructor|]. intros [?|[]]. done.
  - cbn [runSession].
    pose proof (sessionStep_invariant s e Hs) as Hstep.
    destruct (sessionStep db s e) as [s1 r] eqn:E1.
    destruct Hstep as (Hinv & Hkeep & Hret).
    specialize (IH s1 Hinv).
    destruct (runSession db s1 es) as [s2 ps].
    destruct IH as (Hinv2 & Hall & Hstarted).
    split; [done|]. split.
    + destruct r as [p|]; [|done]. constructor; [|done].
      by destruct (Hret p eq_refl).
    + intros [H|[->|H]]; apply Hstarted; [auto| |auto].
      cbn in E1. destruct (ensureSchemaLoaded s) as [s' p] eqn:E.
      injection E1 as <- <-. left. by destruct (Hret p eq_refl).
Qed.

End SingleFlight.

(** C9.  The first call of [ensureSchemaLoaded] in a session starts the
    load.  After any sequence of calls and of the load settling, whatever
    the database answers (also when the load fails), at most one load was
    ever started, every call returned the promise of that one load, and if
    there was a call exactly one load was started and its promise is still
    the one kept. *)
Theorem C9_single_flight (db : Database) (events : list Event) :
  startedOnce (fst (ensureSchemaLoaded initialSession))
  /\ pending (fst (ensureSchemaLoaded initialSession)) = true
  /\ loadsStarted (fst (runSession db initialSession events)) <= 1
  /\ Forall (fun p => p = 0) (snd (runSession db initialSession events))
  /\ (In EnsureCalled events ->
      startedOnce (fst (runSession db initialSession events))).
Proof.
  split; [done|]. split; [done|].
  pose proof (runSession_invariant db events initialSession) as H.
  destruct (runSession db initialSession events) as [s promises].
  destruct H as (Hinv & Hall & Hstarted); [by left|].
  cbn [fst snd]. split; [|split; [done|]].
  - destruct Hinv as [[_ ->]|[_ ->]]; lia.
  - intros Hin. apply Hstarted. by right.
Qed.

(** C9 on a session with a failing load: two calls, the load settling,
    and a third call. *)
Lemma C9_single_flight_witness :
  startedOnce
    (fst (runSession columnsFailDatabase initialSession
            [EnsureCalled; EnsureCalled; LoadSettled; EnsureCalled])).
Proof.
  apply (C9_single_flight columnsFailDatabase
           [EnsureCalled; EnsureCalled; LoadSettled; EnsureCalled]).
  cbn. tauto.
Defined.
